(** * The transposition table of StockfishEXP (tt.cpp)

    A shallow embedding of [TranspositionTable]: the packed entry, the
    cluster array, [probe], [save], [hashfull], [clear] and [resize], with the
    integer widths of the C++ code written out on [Z]. *)

From Stdlib Require Import ZArith Lia String Ascii DecimalString.
From stdpp Require Import base option list.

Local Open Scope Z_scope.

(** ** Fixed-width integers *)

Definition uint8_t (x : Z) : Z := x mod 2 ^ 8.
Definition uint16_t (x : Z) : Z := x mod 2 ^ 16.
Definition int16_t (x : Z) : Z := (x + 2 ^ 15) mod 2 ^ 16 - 2 ^ 15.
Definition size_t (x : Z) : Z := x mod 2 ^ 64.

Arguments uint8_t : simpl never.
Arguments uint16_t : simpl never.
Arguments int16_t : simpl never.
Arguments size_t : simpl never.

(** A [Key] is a 64-bit unsigned integer. *)
Definition is_Key (k : Z) : Prop := 0 ≤ k < 2 ^ 64.

(** [Value] arguments are scores of the engine's value domain, which fits a
    signed 16-bit field; a [Move] is a packed 16-bit move. *)
Definition is_Value (v : Z) : Prop := - 2 ^ 15 ≤ v < 2 ^ 15.
Definition is_Move (m : Z) : Prop := 0 ≤ m < 2 ^ 16.

(** ** Results of operations

    [Fault] is undefined behaviour of the C++ program (an access outside the
    table, a read of an uninitialised pointer); [Exit] is [exit(code)] after
    [err] was written to [std::cerr]. *)

Inductive Result (A : Type) : Type :=
  | Ok (a : A)
  | Fault
  | Exit (code : Z) (err : string).
Arguments Ok {A} a.
Arguments Fault {A}.
Arguments Exit {A} code err.

Global Instance Result_ret : MRet Result := λ A a, Ok a.
Global Instance Result_bind : MBind Result := λ A B f r,
  match r with
  | Ok a => f a
  | Fault => Fault
  | Exit code err => Exit code err
  end.

(** [l[i]] on an array of [length l] elements. *)
Definition load {A} (l : list A) (i : nat) : Result A :=
  match l !! i with
  | Some a => Ok a
  | None => Fault
  end.

(** Dereferencing a pointer variable that may not have been assigned. *)
Definition deref {A} (p : option A) : Result A :=
  match p with
  | Some a => Ok a
  | None => Fault
  end.

(** ** Entries, clusters and the table *)

(** Modelled from the spec: the [Bound] enumeration of types.h, which is not
    among the sources; its members in the spec's order are encoded 0 to 3, so
    that a bound fits the two low bits of [genBound8] and [BOUND_NONE] is the
    value of a zeroed entry. *)
Inductive Bound : Type := BOUND_NONE | BOUND_UPPER | BOUND_LOWER | BOUND_EXACT.

Definition Bound_to_Z (b : Bound) : Z :=
  match b with
  | BOUND_NONE => 0
  | BOUND_UPPER => 1
  | BOUND_LOWER => 2
  | BOUND_EXACT => 3
  end.

Definition Bound_of_Z (x : Z) : Bound :=
  if decide (x = 1) then BOUND_UPPER
  else if decide (x = 2) then BOUND_LOWER
  else if decide (x = 3) then BOUND_EXACT
  else BOUND_NONE.

Global Instance Bound_eq_dec : EqDecision Bound.
Proof. solve_decision. Defined.

(** Modelled from the spec: the [TTEntry] struct of tt.h (section 3 of the
    spec): six fields, 10 bytes. *)
Record TTEntry : Type := mkTTEntry {
  key16 : Z;
  move16 : Z;
  value16 : Z;
  eval16 : Z;
  genBound8 : Z;
  depth8 : Z
}.

Global Instance TTEntry_eq_dec : EqDecision TTEntry.
Proof. solve_decision. Defined.

(** Modelled from the spec: [ClusterSize] and [sizeof(Cluster)] of tt.h. *)
Definition ClusterSize : nat := 3.
Definition sizeof_Cluster : Z := 32.

(** Modelled from the spec: the [Cluster] struct of tt.h: [ClusterSize]
    entries and the padding bytes that round the cluster up to 32 bytes. *)
Record Cluster : Type := mkCluster {
  entry : list TTEntry;
  padding : list Z
}.

Global Instance Cluster_eq_dec : EqDecision Cluster.
Proof. solve_decision. Defined.

(** The members of [TranspositionTable] that the operations read and write. *)
Record TranspositionTable : Type := mkTT {
  clusterCount : Z;
  table : list Cluster;
  generation8 : Z
}.

(** A pointer to an entry of the table: the cluster's index and the slot. *)
Definition EntryPtr : Type := nat * nat.

(** The state of a zeroed entry and of a zeroed cluster. *)
Definition zero_entry : TTEntry := mkTTEntry 0 0 0 0 0 0.
Definition zero_cluster : Cluster :=
  mkCluster (replicate ClusterSize zero_entry) [0; 0].

(** Field stores. *)
Definition set_genBound8 (g : Z) (e : TTEntry) : TTEntry :=
  mkTTEntry (key16 e) (move16 e) (value16 e) (eval16 e) g (depth8 e).
Definition set_entry (i : nat) (e : TTEntry) (c : Cluster) : Cluster :=
  mkCluster (<[i := e]> (entry c)) (padding c).
Definition set_cluster (ci : nat) (c : Cluster) (tt : TranspositionTable)
  : TranspositionTable :=
  mkTT (clusterCount tt) (<[ci := c]> (table tt)) (generation8 tt).

(** Modelled from the spec: the accessors of [TTEntry] in tt.h (section 4.1
    of the spec). *)
Definition entry_generation (g : Z) : Z := Z.land g 0xF8.
Definition entry_bound (g : Z) : Bound := Bound_of_Z (Z.land g 0x3).
Definition entry_is_pv (g : Z) : bool := bool_decide (Z.land g 0x4 ≠ 0).

(** Modelled from the spec: [mul_hi64] of misc.h and [first_entry] of tt.h
    (section 4.3.1 of the spec): the high 64 bits of the 128-bit product. *)
Definition mul_hi64 (a b : Z) : Z := Z.shiftr (a * b) 64.
Definition first_entry (tt : TranspositionTable) (key : Z) : nat :=
  Z.to_nat (mul_hi64 key (clusterCount tt)).

(** The signature of a key inside its cluster: [uint16_t(key >> 48)]. *)
Definition key_sig (key : Z) : Z := uint16_t (Z.shiftr key 48).

Arguments mul_hi64 : simpl never.
Arguments first_entry : simpl never.
Arguments key_sig : simpl never.

(** ** probe *)

(** [TranspositionTable::probe]: the result is [found], the returned pointer
    ([None] is [nullptr]) and the table after the call. *)
Definition probe (tt : TranspositionTable) (key : Z)
  : Result (bool * option EntryPtr * TranspositionTable) :=
  let ci := first_entry tt key in
  c ← load (table tt) ci;
  let k16 := key_sig key in
  match list_find (λ e, key16 e = k16) (entry c) with
  | Some (i, e) =>
      let g := uint8_t (Z.lor (generation8 tt) (Z.land (genBound8 e) 0x7)) in
      Ok (true, Some (ci, i), set_cluster ci (set_entry i (set_genBound8 g e) c) tt)
  | None => Ok (false, None, tt)
  end.

(** ** save *)

(** The replacement score of [save]'s last pass, on [int]:
    [depth8 - ((263 + generation8 - genBound8) & 0xF8)]. *)
Definition rscore (g : Z) (e : TTEntry) : Z :=
  depth8 e - Z.land (263 + g - genBound8 e) 0xF8.

(** The loop of the last pass from index [i] on: [replace] is the current
    leader (its index and the entry it points to), [rest] is [tte[i..]]. *)
Fixpoint least_valuable_from (g : Z) (replace : nat * TTEntry) (i : nat)
    (rest : list TTEntry) : nat * TTEntry :=
  match rest with
  | [] => replace
  | e :: rest' =>
      least_valuable_from g
        (if decide (rscore g replace.2 > rscore g e) then (i, e) else replace)
        (S i) rest'
  end.

(** [replace = tte; for (int i = 1; i < ClusterSize; ++i) ...] *)
Definition least_valuable (g : Z) (tte : list TTEntry) : nat :=
  match tte with
  | [] => 0%nat
  | e0 :: rest => (least_valuable_from g (0%nat, e0) 1 rest).1
  end.

(** The three passes of [save] over the cluster [tte]. [replace] starts
    unassigned ([None]) and [success] false, as in the source. *)
Definition select_victim (g k16 : Z) (tte : list TTEntry) : option nat :=
  let replace : option nat := None in
  let success : bool := false in
  let '(replace, success) :=
    match list_find (λ e, key16 e = k16) tte with
    | Some (i, _) => (Some i, true)
    | None => (replace, success)
    end in
  let '(replace, success) :=
    if success then (replace, success)
    else match list_find (λ e, key16 e = 0) tte with
         | Some (i, _) => (Some i, true)
         | None => (replace, success)
         end in
  if success then replace else Some (least_valuable g tte).

Section Save.

(** [DEPTH_OFFSET] of types.h is not among the sources: the table is
    modelled for any value of the constant. *)
Variable DEPTH_OFFSET : Z.

(** Modelled from the spec: [TTEntry::depth()] of tt.h, the inverse of the
    offset applied when storing. *)
Definition TTEntry_depth (e : TTEntry) : Z := depth8 e + DEPTH_OFFSET.

(** The depths [save] can store without wrapping [depth8]. *)
Definition is_Depth (d : Z) : Prop := 0 ≤ d - DEPTH_OFFSET ≤ 255.

(** The stores of [save] into the entry [replace] points to. *)
Definition write_entry (g k16 v : Z) (pv : bool) (b : Bound) (d m ev : Z)
    (e : TTEntry) : TTEntry :=
  mkTTEntry
    k16
    (if decide (m ≠ 0 ∨ key16 e ≠ k16) then uint16_t m else move16 e)
    (int16_t v)
    (int16_t ev)
    (uint8_t (Z.lor (Z.lor g (Z.shiftl (uint8_t (Z.b2z pv)) 2)) (Bound_to_Z b)))
    (uint8_t (d - DEPTH_OFFSET)).

(** [TranspositionTable::save]. *)
Definition save (tt : TranspositionTable) (k v : Z) (pv : bool) (b : Bound)
    (d m ev : Z) : Result TranspositionTable :=
  let ci := first_entry tt k in
  c ← load (table tt) ci;
  let k16 := key_sig k in
  replace ← deref (select_victim (generation8 tt) k16 (entry c));
  e ← load (entry c) replace;
  Ok (set_cluster ci
        (set_entry replace (write_entry (generation8 tt) k16 v pv b d m ev e) c)
        tt).

End Save.

(** ** hashfull *)

(** The summand of [hashfull]'s inner loop. *)
Definition occupied (g : Z) (e : TTEntry) : bool :=
  bool_decide (Z.land (genBound8 e) 0xF8 = g)
  && bool_decide (Z.land (genBound8 e) 0x3 ≠ Bound_to_Z BOUND_NONE).

(** The outer loop of [hashfull] over the cluster indices [idxs]. *)
Fixpoint hashfull_loop (tt : TranspositionTable) (idxs : list nat) (cnt : Z)
  : Result Z :=
  match idxs with
  | [] => Ok cnt
  | i :: idxs' =>
      c ← load (table tt) i;
      hashfull_loop tt idxs'
        (foldl (λ cnt e, cnt + Z.b2z (occupied (generation8 tt) e)) cnt (entry c))
  end.

(** [TranspositionTable::hashfull]. *)
Definition hashfull (tt : TranspositionTable) : Result Z :=
  cnt ← hashfull_loop tt (seq 0 1000) 0;
  Ok (Z.quot cnt (Z.of_nat ClusterSize)).

(** What the spec counts: the entries of the first 1000 clusters with the
    current generation and a bound other than [BOUND_NONE]. *)
Definition occupied_entries (tt : TranspositionTable) : list TTEntry :=
  filter (λ e, entry_generation (genBound8 e) = generation8 tt
               ∧ entry_bound (genBound8 e) ≠ BOUND_NONE)
         (concat (entry <$> take 1000 (table tt))).

(** ** new_search *)

(** Modelled from the spec: [new_search] of tt.h (section 4.3.5 of the
    spec): the generation advances by 8 in its 8-bit counter. *)
Definition new_search (tt : TranspositionTable) : TranspositionTable :=
  mkTT (clusterCount tt) (table tt) (uint8_t (generation8 tt + 8)).

(** ** clear *)

(** [std::memset(&table[start], 0, len * sizeof(Cluster))]: the byte count is
    a [size_t]; the clusters it covers must lie inside the table. *)
Definition memset_clusters (start len : Z) (tt : TranspositionTable)
  : Result TranspositionTable :=
  let n := size_t (len * sizeof_Cluster) / sizeof_Cluster in
  if decide (0 ≤ start ∧ start + n ≤ Z.of_nat (length (table tt))) then
    Ok (mkTT (clusterCount tt)
          (take (Z.to_nat start) (table tt)
           ++ replicate (Z.to_nat n) zero_cluster
           ++ drop (Z.to_nat (start + n)) (table tt))
          (generation8 tt))
  else Fault.

(** The body of the thread [idx] of [clear], [T] being [Options["Threads"]]. *)
Definition clear_task (T idx : Z) (tt : TranspositionTable)
  : Result TranspositionTable :=
  let stride := size_t (clusterCount tt / T) in
  let start := size_t (stride * idx) in
  let len := if decide (idx ≠ T - 1) then stride
             else size_t (clusterCount tt - start) in
  memset_clusters start len tt.

(** The threads of [clear] write disjoint clusters, and binding a thread to
    a processor group does not touch the table: a run of [clear] is the
    bodies of its threads in the order [order] in which they write. *)
Fixpoint run_tasks (T : Z) (order : list Z) (tt : TranspositionTable)
  : Result TranspositionTable :=
  match order with
  | [] => Ok tt
  | idx :: rest => tt' ← clear_task T idx tt; run_tasks T rest tt'
  end.

(** [TranspositionTable::clear] with the threads in the order they are
    created. *)
Definition clear (T : Z) (tt : TranspositionTable) : Result TranspositionTable :=
  run_tasks T (seqZ 0 T) tt.

(** ** resize *)

(** [EXIT_FAILURE] of <cstdlib>, and what [std::endl] writes. *)
Definition EXIT_FAILURE : Z := 1.
Definition endl : string := String (ascii_of_nat 10) EmptyString.
Definition print_size_t (n : Z) : string :=
  NilZero.string_of_uint (N.to_uint (Z.to_N n)).

(** [aligned_ttmem_alloc] of misc.cpp is the environment's: given a size in
    bytes it fails ([None], the null pointer) or returns a region of
    clusters whose contents are whatever the memory held. *)
Definition Allocator : Type := Z → option (list Cluster).

(** [TranspositionTable::resize], once the search threads have finished
    and the old memory is freed: the new table keeps the generation. *)
Definition resize (alloc : Allocator) (T mbSize : Z) (tt : TranspositionTable)
  : Result TranspositionTable :=
  let count := size_t (mbSize * 1024 * 1024) / sizeof_Cluster in
  match alloc (size_t (count * sizeof_Cluster)) with
  | None =>
      Exit EXIT_FAILURE
        ("Failed to allocate " ++ print_size_t mbSize
         ++ "MB for transposition table." ++ endl)%string
  | Some mem => clear T (mkTT count mem (generation8 tt))
  end.

(** ** Well-formed tables *)

(** A cluster holds [ClusterSize] entries. *)
Definition wf_Cluster (c : Cluster) : Prop := length (entry c) = ClusterSize.

(** The tables [resize] builds for a size of at least one megabyte, at any
    generation [new_search] reaches. *)
Record wf_TT (tt : TranspositionTable) : Prop := mk_wf_TT {
  wf_count : clusterCount tt = Z.of_nat (length (table tt));
  wf_nonempty : 0 < clusterCount tt;
  wf_bytes : clusterCount tt * sizeof_Cluster < 2 ^ 64;
  wf_clusters : Forall wf_Cluster (table tt);
  wf_gen_range : 0 ≤ generation8 tt < 256;
  wf_gen_low : Z.land (generation8 tt) 0x7 = 0
}.

(** The clusters the thread [idx] of [clear] zeroes, [stride] being
    [count / T]: [stride] clusters from [stride * idx] on, and for the last
    thread all that remain. *)
Definition in_task_range (T count idx i : Z) : Prop :=
  count / T * idx ≤ i
  ∧ i < (if decide (idx ≠ T - 1) then count / T * idx + count / T else count).

Global Instance in_task_range_dec T count idx i :
  Decision (in_task_range T count idx i).
Proof. unfold in_task_range. apply _. Defined.

(** An allocator that succeeds returns the clusters it was asked for. *)
Definition wf_Allocator (alloc : Allocator) : Prop :=
  ∀ bytes mem, alloc bytes = Some mem →
    Z.of_nat (length mem) * sizeof_Cluster = bytes ∧ Forall wf_Cluster mem.

(** ** Reading the table *)

(** The entry a pointer refers to, when it points into the table. *)
Definition entry_at (tt : TranspositionTable) (p : EntryPtr) : option TTEntry :=
  c ← table tt !! p.1; entry c !! p.2.

(** The entries of the cluster [first_entry] selects for a key. *)
Definition cluster_of (tt : TranspositionTable) (key : Z) : list TTEntry :=
  from_option entry [] (table tt !! first_entry tt key).

(** An entry as [clear] leaves it. *)
Definition is_empty (e : TTEntry) : Prop := key16 e = 0 ∧ genBound8 e = 0.

(** ** Example tables *)

(** A key of the second of two clusters, and one of the first. *)
Definition ex_key : Z := 0xDEADBEEFCAFEBABE.
Definition ex_other_key : Z := 0x1111000000000000.

(** An entry saved for [ex_key] at generation 8: move [0x1234], value 42,
    eval -5, pv, [BOUND_EXACT], depth 10 at an offset of -6. *)
Definition ex_entry : TTEntry := mkTTEntry 0xDEAD 0x1234 42 (-5) 15 16.

(** Two clusters at generation 16: the first as [clear] left it, the second
    with [ex_entry] in its middle slot. *)
Definition ex_tt : TranspositionTable :=
  mkTT 2
    [zero_cluster;
     mkCluster [mkTTEntry 0xBEEF 7 1 1 9 8; ex_entry; zero_entry] [0; 0]]
    16.

(** [ex_tt] after [probe] refreshed [ex_entry]. *)
Definition ex_tt_refreshed : TranspositionTable :=
  mkTT 2
    [zero_cluster;
     mkCluster [mkTTEntry 0xBEEF 7 1 1 9 8;
                mkTTEntry 0xDEAD 0x1234 42 (-5) 23 16; zero_entry] [0; 0]]
    16.

(** A full cluster of depths 2, 5 and 8 (at an offset of -6) at one
    generation. *)
Definition ex_full : list TTEntry :=
  [mkTTEntry 1 0 0 0 1 8; mkTTEntry 2 0 0 0 1 11; mkTTEntry 3 0 0 0 1 14].

(** A table of that one cluster, at generation 8. *)
Definition ex_full_tt : TranspositionTable :=
  mkTT 1 [mkCluster ex_full [0; 0]] 8.

(** A thousand clusters, each with one entry of the current generation. *)
Definition ex_big : TranspositionTable :=
  mkTT 1000
    (replicate 1000
       (mkCluster [ex_entry; mkTTEntry 0xBEEF 7 1 1 17 8; zero_entry] [0; 0]))
    8.


(** An allocator with 32 megabytes to give, in whole clusters, whose memory
    is not zero. *)
Definition ex_alloc : Allocator := λ bytes,
  if decide (0 ≤ bytes ≤ 2 ^ 25 ∧ bytes mod sizeof_Cluster = 0) then
    Some (replicate (Z.to_nat (bytes / sizeof_Cluster))
            (mkCluster (replicate ClusterSize ex_entry) [255; 255]))
  else None.

(** ** Calls of a client *)

(** A call a search thread or the controller makes on the table. *)
Inductive Call : Type :=
  | CallProbe (key : Z)
  | CallSave (k v : Z) (pv : bool) (b : Bound) (d m ev : Z)
  | CallClear (T : Z).

(** What the caller owes: keys are 64-bit, [clear] runs at least one thread. *)
Definition valid_Call (c : Call) : Prop :=
  match c with
  | CallProbe key => is_Key key
  | CallSave k _ _ _ _ _ _ => is_Key k
  | CallClear T => 1 ≤ T
  end.

(** A sequence of calls, one after the other, on the table they share. *)
Fixpoint run_calls (DEPTH_OFFSET : Z) (calls : list Call)
    (tt : TranspositionTable) : Result TranspositionTable :=
  match calls with
  | [] => Ok tt
  | CallProbe key :: rest =>
      r ← probe tt key; run_calls DEPTH_OFFSET rest r.2
  | CallSave k v pv b d m ev :: rest =>
      tt' ← save DEPTH_OFFSET tt k v pv b d m ev; run_calls DEPTH_OFFSET rest tt'
  | CallClear T :: rest =>
      tt' ← clear T tt; run_calls DEPTH_OFFSET rest tt'
  end.

(** ** Root moves (search.h) *)

Module Search.

(** The data members of [RootMove]; a [Value] and an [int] are integers, the
    principal variation is a vector of moves. *)
Record RootMove : Type := mkRootMove {
  score : Z;
  previousScore : Z;
  averageScore : Z;
  selDepth : Z;
  tbRank : Z;
  visits : Z;
  tbScore : Z;
  pv : list Z
}.

(** [RootMove::operator<], [a] being [*this]. *)
Definition RootMove_lt (a m : RootMove) : bool :=
  if decide (visits m ≠ visits a) then bool_decide (visits m < visits a)
  else if decide (score m ≠ score a) then bool_decide (score m < score a)
  else bool_decide (previousScore m < previousScore a).

End Search.

(** Three root moves: the most visited, and two of equal visits. *)
Definition ex_root_moves : list Search.RootMove :=
  [Search.mkRootMove 10 0 0 0 0 7 0 [1];
   Search.mkRootMove 90 0 0 0 0 3 0 [2];
   Search.mkRootMove 20 5 0 0 0 3 0 [3]].

(** A key of the cluster and the signature of [ex_key], and a key of the
    same cluster with another signature. *)
Definition ex_twin_key : Z := 0xDEAD000000000000.
Definition ex_new_key : Z := 0xCAFE000000000000.

(** Calls of a client on [ex_tt]. *)
Definition ex_calls : list Call :=
  [CallSave ex_new_key 7 false BOUND_UPPER 3 0x0102 (-1);
   CallProbe ex_key;
   CallClear 2;
   CallProbe ex_new_key;
   CallSave ex_key 50 false BOUND_LOWER 12 0 (-4)].

(** A closed table is well formed by evaluation, cluster by cluster. *)
Ltac wf_by_eval :=
  split;
  [reflexivity | reflexivity | reflexivity
  | first [apply Forall_replicate; reflexivity | repeat constructor]
  | by vm_compute | reflexivity].

(** A closed side condition on a key, a value, a move or a depth. *)
Ltac by_eval := by vm_compute.

(** * Properties *)

(** ** Integer casts and packed bits *)

Lemma int16_t_id v : is_Value v → int16_t v = v.
Proof. unfold is_Value, int16_t. intros Hv. rewrite Z.mod_small; lia. Qed.

Lemma uint16_t_id m : is_Move m → uint16_t m = m.
Proof. unfold is_Move, uint16_t. intros Hm. apply Z.mod_small. lia. Qed.

Lemma uint8_t_id x : 0 ≤ x ≤ 255 → uint8_t x = x.
Proof. unfold uint8_t. intros Hx. apply Z.mod_small. lia. Qed.

Lemma key_sig_high_bits key : is_Key key → key_sig key = key / 2 ^ 48.
Proof.
  unfold is_Key, key_sig, uint16_t. intros Hk.
  rewrite Z.shiftr_div_pow2 by lia. apply Z.mod_small. split.
  - apply Z.div_pos; lia.
  - apply Z.div_lt_upper_bound; lia.
Qed.

Lemma byte_cases {P : Z → Prop} `{∀ x, Decision (P x)} :
  bool_decide (Forall P (seqZ 0 256)) = true → ∀ x, 0 ≤ x < 256 → P x.
Proof.
  intros Hb x Hx. apply bool_decide_eq_true in Hb.
  rewrite Forall_seqZ in Hb. apply Hb. lia.
Qed.

(** Packing a generation, a pv flag and a bound and reading them back. *)
Lemma pack_unpack g pv b :
  0 ≤ g < 256 → Z.land g 0x7 = 0 →
  let x := uint8_t (Z.lor (Z.lor g (Z.shiftl (uint8_t (Z.b2z pv)) 2)) (Bound_to_Z b)) in
  entry_generation x = g ∧ entry_is_pv x = pv ∧ entry_bound x = b
  ∧ uint8_t (Z.lor g (Z.land x 0x7)) = x.
Proof.
  intros Hg. cbv zeta. revert g Hg.
  destruct pv, b; (refine (byte_cases _); vm_compute; reflexivity).
Qed.

(** The refresh of [probe] keeps the three low bits and sets the generation. *)
Lemma refresh_bits g old :
  0 ≤ g < 256 → Z.land g 0x7 = 0 →
  let x := uint8_t (Z.lor g (Z.land old 0x7)) in
  Z.land x 0x7 = Z.land old 0x7 ∧ Z.land x 0xF8 = g.
Proof.
  intros Hg Hlow.
  assert (Hy : 0 ≤ Z.land old 0x7 < 8).
  { change 0x7 with (Z.ones 3). rewrite Z.land_ones by lia.
    apply Z.mod_pos_bound. lia. }
  revert Hy. generalize (Z.land old 0x7). intros y Hy.
  revert g Hg Hlow. cbv zeta.
  assert (Hc : y = 0 ∨ y = 1 ∨ y = 2 ∨ y = 3 ∨ y = 4 ∨ y = 5 ∨ y = 6 ∨ y = 7)
    by lia.
  destruct Hc as [->|[->|[->|[->|[->|[->|[->| ->]]]]]]];
    (refine (byte_cases _); vm_compute; reflexivity).
Qed.

(** The pv flag and the bound are functions of the three low bits. *)
Lemma low_bits_pv_bound x y :
  Z.land x 0x7 = Z.land y 0x7 →
  entry_is_pv x = entry_is_pv y ∧ entry_bound x = entry_bound y.
Proof.
  intros Hxy. unfold entry_is_pv, entry_bound.
  assert (H4 : Z.land x 0x4 = Z.land y 0x4).
  { change 0x4 with (Z.land 0x7 0x4). by rewrite !Z.land_assoc, Hxy. }
  assert (H3 : Z.land x 0x3 = Z.land y 0x3).
  { change 0x3 with (Z.land 0x7 0x3). by rewrite !Z.land_assoc, Hxy. }
  by rewrite H4, H3.
Qed.

(** ** The index function *)

Lemma first_entry_lt tt key :
  wf_TT tt → is_Key key → (first_entry tt key < length (table tt))%nat.
Proof.
  intros [Hc Hn _ _ _ _] Hk. unfold first_entry, mul_hi64, is_Key in *.
  rewrite Z.shiftr_div_pow2 by lia.
  assert (0 ≤ key * clusterCount tt / 2 ^ 64 < clusterCount tt).
  { split.
    - apply Z.div_pos; nia.
    - apply Z.div_lt_upper_bound; nia. }
  lia.
Qed.

Lemma target_cluster tt key :
  wf_TT tt → is_Key key →
  ∃ c, table tt !! first_entry tt key = Some c ∧ wf_Cluster c
       ∧ cluster_of tt key = entry c.
Proof.
  intros Hwf Hk.
  destruct (lookup_lt_is_Some_2 (table tt) (first_entry tt key)) as [c Hc].
  { by apply first_entry_lt. }
  exists c. split_and!; [done| |].
  - eapply Forall_lookup_1; [apply (wf_clusters _ Hwf)|done].
  - unfold cluster_of. by rewrite Hc.
Qed.

(** ** Stores into the table *)

Lemma entry_at_lookup tt ci i c :
  table tt !! ci = Some c → entry_at tt (ci, i) = entry c !! i.
Proof. intros Hc. unfold entry_at. simpl. by rewrite Hc. Qed.

Lemma entry_at_set_same tt ci c i e e0 :
  table tt !! ci = Some c → entry c !! i = Some e0 →
  entry_at (set_cluster ci (set_entry i e c) tt) (ci, i) = Some e.
Proof.
  intros Hc He. unfold entry_at, set_cluster, set_entry. simpl.
  rewrite list_lookup_insert_eq by by eapply lookup_lt_Some.
  simpl. rewrite list_lookup_insert_eq by by eapply lookup_lt_Some. done.
Qed.

Lemma entry_at_set_other tt ci c i e q :
  table tt !! ci = Some c → q ≠ (ci, i) →
  entry_at (set_cluster ci (set_entry i e c) tt) q = entry_at tt q.
Proof.
  intros Hc Hq. destruct q as [cj j]. unfold entry_at, set_cluster, set_entry.
  simpl. destruct (decide (cj = ci)) as [->|Hne].
  - rewrite list_lookup_insert_eq by by eapply lookup_lt_Some.
    rewrite Hc. simpl. rewrite list_lookup_insert_ne by congruence. done.
  - by rewrite list_lookup_insert_ne.
Qed.

Lemma set_cluster_wf tt ci c i e :
  wf_TT tt → table tt !! ci = Some c →
  wf_TT (set_cluster ci (set_entry i e c) tt).
Proof.
  intros [Hc Hn Hb Hcl Hg Hl] Hci. split; simpl; try done.
  - by rewrite length_insert.
  - apply Forall_insert; [done|]. unfold wf_Cluster, set_entry. simpl.
    rewrite length_insert. eapply Forall_lookup_1 in Hcl; [|done]. done.
Qed.

Lemma first_entry_set_cluster tt ci c key :
  first_entry (set_cluster ci c tt) key = first_entry tt key.
Proof. done. Qed.

(** ** probe *)

Lemma probe_unfold tt key :
  wf_TT tt → is_Key key →
  ∃ c, table tt !! first_entry tt key = Some c ∧ wf_Cluster c
    ∧ cluster_of tt key = entry c
    ∧ probe tt key =
      match list_find (λ e, key16 e = key_sig key) (entry c) with
      | Some (i, e) =>
          Ok (true, Some (first_entry tt key, i),
              set_cluster (first_entry tt key)
                (set_entry i
                   (set_genBound8
                      (uint8_t (Z.lor (generation8 tt) (Z.land (genBound8 e) 0x7))) e)
                   c) tt)
      | None => Ok (false, None, tt)
      end.
Proof.
  intros Hwf Hk. destruct (target_cluster tt key Hwf Hk) as (c & Hc & Hwc & Hco).
  exists c. split_and!; try done. unfold probe, load. rewrite Hc. done.
Qed.

(** C1 (as amended): for every 64-bit key whose target cluster contains no
    entry with [key16] equal to the key's high 16 bits, [probe] returns
    [found = false] together with the null pointer, and leaves the table as
    it was. *)
Theorem probe_miss_null tt key :
  wf_TT tt → is_Key key →
  Forall (λ e, key16 e ≠ key / 2 ^ 48) (cluster_of tt key) →
  probe tt key = Ok (false, None, tt).
Proof.
  intros Hwf Hk Hmiss.
  destruct (probe_unfold tt key Hwf Hk) as (c & _ & _ & Hco & ->).
  rewrite Hco, <- (key_sig_high_bits key Hk) in Hmiss.
  assert (Hnone : list_find (λ e, key16 e = key_sig key) (entry c) = None)
    by by apply list_find_None.
  by rewrite Hnone.
Qed.

(** C5: when [probe] hits an entry it rewrites only the generation bits of
    that entry's [genBound8] (they become the current generation), the pv
    flag and the bound bits are preserved, [key16], [move16], [value16],
    [eval16] and [depth8] are the same before and after, and no other entry
    of the table is modified. *)
Theorem probe_hit_frame tt key p tt' :
  wf_TT tt → is_Key key →
  probe tt key = Ok (true, Some p, tt') →
  ∃ e e',
    entry_at tt p = Some e ∧ entry_at tt' p = Some e'
    ∧ p.1 = first_entry tt key
    ∧ entry_generation (genBound8 e') = generation8 tt
    ∧ Z.land (genBound8 e') 0x7 = Z.land (genBound8 e) 0x7
    ∧ entry_is_pv (genBound8 e') = entry_is_pv (genBound8 e)
    ∧ entry_bound (genBound8 e') = entry_bound (genBound8 e)
    ∧ key16 e' = key16 e ∧ move16 e' = move16 e ∧ value16 e' = value16 e
    ∧ eval16 e' = eval16 e ∧ depth8 e' = depth8 e
    ∧ (∀ q, q ≠ p → entry_at tt' q = entry_at tt q)
    ∧ padding <$> table tt' = padding <$> table tt
    ∧ clusterCount tt' = clusterCount tt ∧ generation8 tt' = generation8 tt.
Proof.
  intros Hwf Hk Hp.
  destruct (probe_unfold tt key Hwf Hk) as (c & Hc & Hwc & Hco & Hpr).
  rewrite Hpr in Hp.
  destruct (list_find _ (entry c)) as [[i e]|] eqn:Hfind; [|done].
  injection Hp as <- <-.
  apply list_find_Some in Hfind as (Hi & Hkey & _).
  destruct (refresh_bits (generation8 tt) (genBound8 e)
              (wf_gen_range _ Hwf) (wf_gen_low _ Hwf)) as [Hlow Hgen].
  destruct (low_bits_pv_bound _ _ Hlow) as [Hpv Hb].
  exists e, (set_genBound8
    (uint8_t (Z.lor (generation8 tt) (Z.land (genBound8 e) 0x7))) e).
  split_and!.
  - by rewrite (entry_at_lookup _ _ _ _ Hc).
  - by eapply entry_at_set_same.
  - reflexivity.
  - exact Hgen.
  - exact Hlow.
  - exact Hpv.
  - exact Hb.
  - reflexivity.
  - reflexivity.
  - reflexivity.
  - reflexivity.
  - reflexivity.
  - intros q Hq. by apply entry_at_set_other.
  - unfold set_cluster, set_entry. cbn [table].
    rewrite list_fmap_insert. cbn [padding]. apply list_insert_id.
    by rewrite list_lookup_fmap, Hc.
  - reflexivity.
  - reflexivity.
Qed.


(** Whatever else the cluster holds, an all-zero entry in it makes [probe]
    answer a key of zero high bits with a hit. *)
Lemma probe_zero_key_found tt key :
  wf_TT tt → is_Key key → key / 2 ^ 48 = 0 →
  zero_entry ∈ cluster_of tt key →
  ∃ i tt', probe tt key = Ok (true, Some (first_entry tt key, i), tt').
Proof.
  intros Hwf Hk Hhi Hin.
  destruct (probe_unfold tt key Hwf Hk) as (c & Hc & Hwc & Hco & Hpr).
  rewrite Hco in Hin. rewrite Hpr.
  destruct (list_find_elem_of (λ e, key16 e = key_sig key) (entry c) zero_entry)
    as [[i e] Hfind]; [done|by rewrite key_sig_high_bits|].
  rewrite Hfind. eauto.
Qed.

(** ** The victim of save *)

Lemma least_valuable_from_inv g rest : ∀ pre ri re,
  pre !! ri = Some re →
  (∀ j e', pre !! j = Some e' →
     rscore g re ≤ rscore g e' ∧ ((j < ri)%nat → rscore g re < rscore g e')) →
  ∃ r e, least_valuable_from g (ri, re) (length pre) rest = (r, e)
    ∧ (pre ++ rest) !! r = Some e
    ∧ ∀ j e', (pre ++ rest) !! j = Some e' →
        rscore g e ≤ rscore g e' ∧ ((j < r)%nat → rscore g e < rscore g e').
Proof.
  induction rest as [|x rest IH]; intros pre ri re Hri Hmin.
  - exists ri, re. rewrite app_nil_r. done.
  - cbn [least_valuable_from snd].
    replace (S (length pre)) with (length (pre ++ [x]))
      by (rewrite length_app; simpl; lia).
    rewrite (cons_middle x pre rest), app_assoc.
    destruct (decide (rscore g re > rscore g x)) as [Hgt|Hle].
    + apply IH.
      * rewrite lookup_app_r by lia. by rewrite Nat.sub_diag.
      * intros j e' Hj. apply lookup_app_Some in Hj as [Hj|[Hlen Hj]].
        -- destruct (Hmin j e' Hj) as [Hle _]. split; [lia|].
           intros _. lia.
        -- apply list_lookup_singleton_Some in Hj as [_ <-].
           split; [lia|]. intros Hlt. lia.
    + apply IH.
      * by apply lookup_app_l_Some.
      * intros j e' Hj. apply lookup_app_Some in Hj as [Hj|[Hlen Hj]].
        -- by apply Hmin.
        -- apply list_lookup_singleton_Some in Hj as [_ <-].
           split; [lia|]. intros Hlt. apply lookup_lt_Some in Hri. lia.
Qed.

(** The last pass returns the earliest entry of minimal score. *)
Lemma least_valuable_min g tte :
  tte ≠ [] →
  ∃ e, tte !! least_valuable g tte = Some e
    ∧ ∀ j e', tte !! j = Some e' →
        rscore g e ≤ rscore g e'
        ∧ ((j < least_valuable g tte)%nat → rscore g e < rscore g e').
Proof.
  destruct tte as [|e0 rest]; [done|]. intros _.
  destruct (least_valuable_from_inv g rest [e0] 0%nat e0) as (r & e & Hr & He & Hmin).
  { done. }
  { intros j e' Hj. apply list_lookup_singleton_Some in Hj as [-> <-].
    split; lia. }
  unfold least_valuable. simpl in Hr. rewrite Hr. simpl. eauto.
Qed.

(** The three ways [select_victim] assigns [replace]. *)
Lemma select_victim_cases g k16 tte :
  (∃ i e, list_find (λ e, key16 e = k16) tte = Some (i, e)
          ∧ select_victim g k16 tte = Some i)
  ∨ (list_find (λ e, key16 e = k16) tte = None
     ∧ ∃ i e, list_find (λ e, key16 e = 0) tte = Some (i, e)
              ∧ select_victim g k16 tte = Some i)
  ∨ (list_find (λ e, key16 e = k16) tte = None
     ∧ list_find (λ e, key16 e = 0) tte = None
     ∧ select_victim g k16 tte = Some (least_valuable g tte)).
Proof.
  unfold select_victim.
  destruct (list_find (λ e, key16 e = k16) tte) as [[i e]|] eqn:Hk.
  - left. eauto.
  - destruct (list_find (λ e, key16 e = 0) tte) as [[i e]|] eqn:H0.
    + right. left. eauto.
    + right. right. done.
Qed.

(** [replace] points into the cluster once the passes are over. *)
Lemma select_victim_valid g k16 tte :
  tte ≠ [] →
  ∃ r old, select_victim g k16 tte = Some r ∧ tte !! r = Some old.
Proof.
  intros Hne.
  destruct (select_victim_cases g k16 tte)
    as [(i & e & Hf & ->)|[(_ & i & e & Hf & ->)|(_ & _ & ->)]].
  - apply list_find_Some in Hf as (Hi & _). eauto.
  - apply list_find_Some in Hf as (Hi & _). eauto.
  - destruct (least_valuable_min g tte Hne) as (e & He & _). eauto.
Qed.

(** No entry scanned before the victim carries the key's signature. *)
Lemma select_victim_no_earlier_match g k16 tte r :
  select_victim g k16 tte = Some r →
  ∀ j e, (j < r)%nat → tte !! j = Some e → key16 e ≠ k16.
Proof.
  intros Hsel j e Hj He.
  destruct (select_victim_cases g k16 tte)
    as [(i & e' & Hf & Hs)|[(Hnone & _)|(Hnone & _)]].
  - rewrite Hs in Hsel. injection Hsel as <-.
    apply list_find_Some in Hf as (_ & _ & Hleast). by eapply Hleast.
  - eapply list_find_None in Hnone. eapply Forall_lookup_1 in Hnone; done.
  - eapply list_find_None in Hnone. eapply Forall_lookup_1 in Hnone; done.
Qed.

(** The victim carries the key's signature exactly when the first pass
    found it. *)
Lemma select_victim_match g k16 tte r old :
  select_victim g k16 tte = Some r → tte !! r = Some old →
  match list_find (λ e, key16 e = k16) tte with
  | Some (i, e) => i = r ∧ e = old ∧ key16 old = k16
  | None => key16 old ≠ k16
  end.
Proof.
  intros Hsel Hold.
  destruct (select_victim_cases g k16 tte)
    as [(i & e' & Hf & Hs)|[(Hnone & _)|(Hnone & _)]].
  - rewrite Hf. rewrite Hs in Hsel. injection Hsel as ->.
    apply list_find_Some in Hf as (Hi & Hk & _). split_and!; congruence.
  - rewrite Hnone. eapply list_find_None in Hnone.
    eapply Forall_lookup_1 in Hnone; done.
  - rewrite Hnone. eapply list_find_None in Hnone.
    eapply Forall_lookup_1 in Hnone; done.
Qed.

(** The three passes over a cluster end on the first entry whose [key16]
    is the signature if one exists; otherwise on the first entry in scan
    order with [key16 = 0]; otherwise on an entry minimizing [rscore], the
    one scanned first among those of minimal score. *)
Lemma select_victim_three_phases g k16 tte :
  length tte = ClusterSize →
  ∃ r victim,
    select_victim g k16 tte = Some r ∧ tte !! r = Some victim
    ∧ ((∃ e, e ∈ tte ∧ key16 e = k16) →
         key16 victim = k16
         ∧ ∀ j e, (j < r)%nat → tte !! j = Some e → key16 e ≠ k16)
    ∧ ((∀ e, e ∈ tte → key16 e ≠ k16) → (∃ e, e ∈ tte ∧ key16 e = 0) →
         key16 victim = 0
         ∧ ∀ j e, (j < r)%nat → tte !! j = Some e → key16 e ≠ 0)
    ∧ ((∀ e, e ∈ tte → key16 e ≠ k16) → (∀ e, e ∈ tte → key16 e ≠ 0) →
         rscore g victim
           = depth8 victim - Z.land (263 + g - genBound8 victim) 0xF8
         ∧ (∀ e, e ∈ tte → rscore g victim ≤ rscore g e)
         ∧ ∀ j e, (j < r)%nat → tte !! j = Some e →
             rscore g victim < rscore g e).
Proof.
  intros Hlen.
  assert (Hne : tte ≠ []) by (intros ->; done).
  destruct (select_victim_valid g k16 tte Hne) as (r & victim & Hsel & Hr).
  exists r, victim. split_and!; [done|done|..].
  - intros (e & Hin & He).
    pose proof (select_victim_match g k16 tte r victim Hsel Hr) as Hm.
    destruct (list_find (λ e, key16 e = k16) tte) as [[i e']|] eqn:Hf.
    + destruct Hm as (_ & _ & Hk). split; [done|].
      by apply (select_victim_no_earlier_match g k16 tte r).
    + eapply list_find_None in Hf. rewrite Forall_forall in Hf.
      by destruct (Hf e Hin).
  - intros Hnomatch (e & Hin & He).
    destruct (select_victim_cases g k16 tte)
      as [(i & e' & Hf & Hs)|[(_ & i & e' & Hf & Hs)|(_ & Hnone & _)]].
    + apply list_find_Some in Hf as (Hi & Hk & _).
      apply list_elem_of_lookup_2 in Hi. by destruct (Hnomatch e' Hi).
    + rewrite Hs in Hsel. injection Hsel as ->.
      apply list_find_Some in Hf as (Hi & Hk & Hleast).
      split; [congruence|]. intros j e'' Hj He''. by eapply Hleast.
    + eapply list_find_None in Hnone. rewrite Forall_forall in Hnone.
      by destruct (Hnone e Hin).
  - intros Hnomatch Hnoempty.
    destruct (select_victim_cases g k16 tte)
      as [(i & e' & Hf & Hs)|[(_ & i & e' & Hf & Hs)|(_ & _ & Hs)]].
    + apply list_find_Some in Hf as (Hi & Hk & _).
      apply list_elem_of_lookup_2 in Hi. by destruct (Hnomatch e' Hi).
    + apply list_find_Some in Hf as (Hi & Hk & _).
      apply list_elem_of_lookup_2 in Hi. by destruct (Hnoempty e' Hi).
    + rewrite Hs in Hsel. injection Hsel as <-.
      destruct (least_valuable_min g tte Hne) as (e & He & Hmin).
      assert (e = victim) as -> by congruence.
      split_and!; [done| |].
      * intros e' Hin. apply list_elem_of_lookup_1 in Hin as [j Hj].
        by destruct (Hmin j e' Hj).
      * intros j e' Hj He'. destruct (Hmin j e' He') as [_ Hlt]. by apply Hlt.
Qed.

(** ** save *)

Section SaveProperties.

Variable DEPTH_OFFSET : Z.

Lemma save_unfold tt k v pv b d m ev :
  wf_TT tt → is_Key k →
  ∃ c r old,
    table tt !! first_entry tt k = Some c ∧ wf_Cluster c
    ∧ cluster_of tt k = entry c
    ∧ select_victim (generation8 tt) (key_sig k) (entry c) = Some r
    ∧ entry c !! r = Some old
    ∧ save DEPTH_OFFSET tt k v pv b d m ev =
        Ok (set_cluster (first_entry tt k)
              (set_entry r
                 (write_entry DEPTH_OFFSET (generation8 tt) (key_sig k)
                    v pv b d m ev old) c) tt).
Proof.
  intros Hwf Hk. destruct (target_cluster tt k Hwf Hk) as (c & Hc & Hwc & Hco).
  assert (Hne : entry c ≠ []).
  { intros Hnil. unfold wf_Cluster in Hwc. by rewrite Hnil in Hwc. }
  destruct (select_victim_valid (generation8 tt) (key_sig k) (entry c) Hne)
    as (r & old & Hsel & Hr).
  exists c, r, old. split_and!; try done.
  unfold save, load. rewrite Hc. cbn [mbind Result_bind].
  rewrite Hsel. cbn [deref mbind Result_bind]. rewrite Hr. done.
Qed.

(** C4: in [save]'s write phase the victim's [move16] is left as it was if
    the incoming move is 0 and the victim's [key16] already equals the new
    key's signature, and only then: in every other case it is overwritten
    with the incoming move. [key16], [value16], [eval16], the stored depth
    [d - DEPTH_OFFSET] and [genBound8] (the current generation, the new pv
    flag, the new bound) are overwritten unconditionally, and no other entry
    is written. *)
Theorem save_write_phase tt k v pv b d m ev :
  wf_TT tt → is_Key k → is_Value v → is_Value ev → is_Move m → is_Depth DEPTH_OFFSET d →
  ∃ r old new tt',
    select_victim (generation8 tt) (key_sig k) (cluster_of tt k) = Some r
    ∧ entry_at tt (first_entry tt k, r) = Some old
    ∧ save DEPTH_OFFSET tt k v pv b d m ev = Ok tt'
    ∧ entry_at tt' (first_entry tt k, r) = Some new
    ∧ (m = 0 ∧ key16 old = key_sig k → move16 new = move16 old)
    ∧ (¬ (m = 0 ∧ key16 old = key_sig k) → move16 new = m)
    ∧ key16 new = key_sig k
    ∧ value16 new = v
    ∧ eval16 new = ev
    ∧ depth8 new = d - DEPTH_OFFSET
    ∧ genBound8 new
        = Z.lor (Z.lor (generation8 tt) (Z.shiftl (Z.b2z pv) 2)) (Bound_to_Z b)
    ∧ entry_generation (genBound8 new) = generation8 tt
    ∧ entry_is_pv (genBound8 new) = pv
    ∧ entry_bound (genBound8 new) = b
    ∧ ∀ q, q ≠ (first_entry tt k, r) → entry_at tt' q = entry_at tt q.
Proof.
  intros Hwf Hk Hv Hev Hm Hd.
  destruct (save_unfold tt k v pv b d m ev Hwf Hk)
    as (c & r & old & Hc & Hwc & Hco & Hsel & Hr & Hsave).
  destruct (pack_unpack (generation8 tt) pv b
              (wf_gen_range _ Hwf) (wf_gen_low _ Hwf)) as (Hgen & Hpv & Hb & _).
  eexists r, old, _, _. split_and!.
  - by rewrite Hco.
  - by rewrite (entry_at_lookup _ _ _ _ Hc).
  - exact Hsave.
  - by eapply entry_at_set_same.
  - intros [-> Hkey]. cbn [write_entry move16].
    destruct (decide _) as [[?|?]|_]; done.
  - intros Hnot. cbn [write_entry move16].
    destruct (decide _) as [_|Hno]; [by apply uint16_t_id|].
    destruct Hnot. split.
    + destruct (decide (m = 0)); [done|]. destruct Hno. by left.
    + destruct (decide (key16 old = key_sig k)); [done|]. destruct Hno. by right.
  - reflexivity.
  - by apply int16_t_id.
  - by apply int16_t_id.
  - by apply uint8_t_id.
  - cbn [write_entry genBound8]. clear -Hwf.
    pose proof (wf_gen_range _ Hwf) as Hg. revert Hg.
    generalize (generation8 tt). intros g Hg. revert g Hg.
    destruct pv, b; (refine (byte_cases _); vm_compute; reflexivity).
  - exact Hgen.
  - exact Hpv.
  - exact Hb.
  - intros q Hq. by apply entry_at_set_other.
Qed.

(** C9: in every execution of [save] the victim pointer [replace] is
    assigned before it is dereferenced: the passes leave it pointing to an
    entry of the target cluster, after two failed scans the last pass starts
    from the cluster's first entry, and [save] completes by writing that
    entry, without reading an unassigned pointer or leaving the cluster. *)
Theorem save_replace_assigned tt k v pv b d m ev :
  wf_TT tt → is_Key k →
  ∃ r old tt',
    select_victim (generation8 tt) (key_sig k) (cluster_of tt k) = Some r
    ∧ (r < ClusterSize)%nat
    ∧ entry_at tt (first_entry tt k, r) = Some old
    ∧ (list_find (λ e, key16 e = key_sig k) (cluster_of tt k) = None →
       list_find (λ e, key16 e = 0) (cluster_of tt k) = None →
       ∃ e0 rest, cluster_of tt k = e0 :: rest
         ∧ r = (least_valuable_from (generation8 tt) (0%nat, e0) 1 rest).1)
    ∧ save DEPTH_OFFSET tt k v pv b d m ev = Ok tt'
    ∧ entry_at tt' (first_entry tt k, r)
        = Some (write_entry DEPTH_OFFSET (generation8 tt) (key_sig k)
                  v pv b d m ev old)
    ∧ wf_TT tt'.
Proof.
  intros Hwf Hk.
  destruct (save_unfold tt k v pv b d m ev Hwf Hk)
    as (c & r & old & Hc & Hwc & Hco & Hsel & Hr & Hsave).
  eexists r, old, _. split_and!.
  - by rewrite Hco.
  - apply lookup_lt_Some in Hr. unfold wf_Cluster in Hwc. lia.
  - by rewrite (entry_at_lookup _ _ _ _ Hc).
  - rewrite Hco. intros Hn1 Hn0.
    destruct (entry c) as [|e0 rest] eqn:Hentry; [done|].
    exists e0, rest. split; [done|].
    unfold select_victim in Hsel. rewrite Hn1, Hn0 in Hsel.
    by injection Hsel as <-.
  - exact Hsave.
  - by eapply entry_at_set_same.
  - by apply set_cluster_wf.
Qed.

(** C2: in single-threaded use, after [save] with a bound other than
    [BOUND_NONE] and a depth in the representable range, an immediate
    [probe] of the same key returns [found = true] and an entry whose value,
    eval, bound, pv flag and depth are the saved ones; its move is the saved
    move, or the move stored before when the saved move is 0 and an entry
    for the key was already present. *)
Theorem save_then_probe tt k v pv b d m ev :
  wf_TT tt → is_Key k → is_Value v → is_Value ev → is_Move m →
  is_Depth DEPTH_OFFSET d → b ≠ BOUND_NONE →
  ∃ tt1 p tt2 e,
    save DEPTH_OFFSET tt k v pv b d m ev = Ok tt1
    ∧ probe tt1 k = Ok (true, Some p, tt2)
    ∧ entry_at tt2 p = Some e
    ∧ value16 e = v
    ∧ eval16 e = ev
    ∧ entry_bound (genBound8 e) = b
    ∧ entry_is_pv (genBound8 e) = pv
    ∧ TTEntry_depth DEPTH_OFFSET e = d
    ∧ move16 e =
        match list_find (λ e, key16 e = key_sig k) (cluster_of tt k) with
        | Some (_, old) => if decide (m = 0) then move16 old else m
        | None => m
        end.
Proof.
  intros Hwf Hk Hv Hev Hm Hd _.
  destruct (save_unfold tt k v pv b d m ev Hwf Hk)
    as (c & r & old & Hc & Hwc & Hco & Hsel & Hr & Hsave).
  set (new := write_entry DEPTH_OFFSET (generation8 tt) (key_sig k)
                v pv b d m ev old) in *.
  set (tt1 := set_cluster (first_entry tt k) (set_entry r new c) tt) in *.
  assert (Hwf1 : wf_TT tt1) by by apply set_cluster_wf.
  destruct (probe_unfold tt1 k Hwf1 Hk) as (c1 & Hc1 & _ & _ & Hprobe).
  assert (Hc1' : c1 = set_entry r new c).
  { unfold tt1 in Hc1. rewrite first_entry_set_cluster in Hc1.
    cbn [set_cluster table] in Hc1.
    rewrite list_lookup_insert_eq in Hc1 by by eapply lookup_lt_Some.
    congruence. }
  subst c1.
  assert (Hfind : list_find (λ e, key16 e = key_sig k)
                    (entry (set_entry r new c)) = Some (r, new)).
  { apply list_find_Some. cbn [set_entry entry]. split_and!.
    - apply list_lookup_insert_eq. by eapply lookup_lt_Some.
    - reflexivity.
    - intros j e Hj Hlt. rewrite list_lookup_insert_ne in Hj by lia.
      by eapply select_victim_no_earlier_match. }
  rewrite Hfind in Hprobe.
  destruct (pack_unpack (generation8 tt) pv b
              (wf_gen_range _ Hwf) (wf_gen_low _ Hwf))
    as (_ & Hpv & Hb & Hrefresh).
  eexists tt1, _, _, _. split_and!.
  - exact Hsave.
  - exact Hprobe.
  - eapply entry_at_set_same; [exact Hc1|].
    cbn [set_entry entry]. apply list_lookup_insert_eq. by eapply lookup_lt_Some.
  - by apply int16_t_id.
  - by apply int16_t_id.
  - cbn [set_genBound8 genBound8 new write_entry tt1 set_cluster generation8].
    rewrite Hrefresh. exact Hb.
  - cbn [set_genBound8 genBound8 new write_entry tt1 set_cluster generation8].
    rewrite Hrefresh. exact Hpv.
  - unfold TTEntry_depth. cbn [set_genBound8 depth8 new write_entry].
    rewrite uint8_t_id by exact Hd. lia.
  - cbn [set_genBound8 move16 new write_entry].
    pose proof (select_victim_match _ _ _ _ _ Hsel Hr) as Hmatch.
    rewrite Hco.
    destruct (list_find (λ e, key16 e = key_sig k) (entry c)) as [[i e]|].
    + destruct Hmatch as (_ & -> & Hkey).
      destruct (decide (m = 0)) as [->|Hm0].
      * destruct (decide _) as [[?|?]|_]; done.
      * destruct (decide _) as [_|Hno]; [by apply uint16_t_id|].
        destruct Hno. by left.
    + destruct (decide _) as [_|Hno]; [by apply uint16_t_id|].
      destruct Hno. by right.
Qed.

End SaveProperties.

(** C3: [save] selects its victim in three phases over the cluster of its
    key, with the key's signature and the table's generation, and the
    victim is the one entry it writes: the first entry whose [key16] matches
    the key's signature if one exists; otherwise the first entry in scan
    order with [key16 = 0]; otherwise the entry minimizing
    [rscore e = depth8 e - ((263 + generation8 - genBound8 e) & 0xF8)], on a
    tie the one scanned first (every entry scanned before the victim has a
    strictly greater score: the leader is replaced only when strictly
    beaten). *)
Theorem save_victim_three_phases DEPTH_OFFSET tt k v pv b d m ev :
  wf_TT tt → is_Key k →
  ∃ r victim tt',
    save DEPTH_OFFSET tt k v pv b d m ev = Ok tt'
    ∧ key_sig k = k / 2 ^ 48
    ∧ cluster_of tt k !! r = Some victim
    ∧ entry_at tt (first_entry tt k, r) = Some victim
    ∧ entry_at tt' (first_entry tt k, r)
      = Some (write_entry DEPTH_OFFSET (generation8 tt) (key_sig k)
                v pv b d m ev victim)
    ∧ (∀ q, q ≠ (first_entry tt k, r) → entry_at tt' q = entry_at tt q)
    ∧ ((∃ e, e ∈ cluster_of tt k ∧ key16 e = key_sig k) →
         key16 victim = key_sig k
         ∧ ∀ j e, (j < r)%nat → cluster_of tt k !! j = Some e →
             key16 e ≠ key_sig k)
    ∧ ((∀ e, e ∈ cluster_of tt k → key16 e ≠ key_sig k) →
       (∃ e, e ∈ cluster_of tt k ∧ key16 e = 0) →
         key16 victim = 0
         ∧ ∀ j e, (j < r)%nat → cluster_of tt k !! j = Some e → key16 e ≠ 0)
    ∧ ((∀ e, e ∈ cluster_of tt k → key16 e ≠ key_sig k) →
       (∀ e, e ∈ cluster_of tt k → key16 e ≠ 0) →
         rscore (generation8 tt) victim
           = depth8 victim
             - Z.land (263 + generation8 tt - genBound8 victim) 0xF8
         ∧ (∀ e, e ∈ cluster_of tt k →
              rscore (generation8 tt) victim ≤ rscore (generation8 tt) e)
         ∧ ∀ j e, (j < r)%nat → cluster_of tt k !! j = Some e →
             rscore (generation8 tt) victim < rscore (generation8 tt) e).
Proof.
  intros Hwf Hk.
  destruct (save_unfold DEPTH_OFFSET tt k v pv b d m ev Hwf Hk)
    as (c & r & old & Hc & Hwc & Hco & Hsel & Hr & Hsave).
  destruct (select_victim_three_phases (generation8 tt) (key_sig k) (entry c) Hwc)
    as (r' & victim & Hsel' & Hr' & Hmatch & Hempty & Hleast).
  assert (r' = r) as -> by congruence.
  assert (victim = old) as -> by congruence.
  exists r, old. eexists. rewrite Hco. split_and!.
  - exact Hsave.
  - by apply key_sig_high_bits.
  - exact Hr.
  - by rewrite (entry_at_lookup _ _ _ _ Hc).
  - by eapply entry_at_set_same.
  - intros q Hq. by apply entry_at_set_other.
  - exact Hmatch.
  - exact Hempty.
  - exact Hleast.
Qed.

(** ** hashfull *)

Lemma occupied_spec g e :
  occupied g e = true
  ↔ entry_generation (genBound8 e) = g ∧ entry_bound (genBound8 e) ≠ BOUND_NONE.
Proof.
  unfold occupied, entry_generation, entry_bound, Bound_of_Z.
  rewrite andb_true_iff, !bool_decide_eq_true.
  assert (Hr : 0 ≤ Z.land (genBound8 e) 0x3 < 4).
  { change 0x3 with (Z.ones 2). rewrite Z.land_ones by lia.
    apply Z.mod_pos_bound. lia. }
  revert Hr. generalize (Z.land (genBound8 e) 0x3). intros y Hy.
  cbn [Bound_to_Z].
  repeat case_decide; split; intros [? ?]; split; try done; try lia.
Qed.

Lemma hashfull_inner g l : ∀ cnt,
  foldl (λ cnt e, cnt + Z.b2z (occupied g e)) cnt l
  = cnt + Z.of_nat (length (filter
      (λ e, entry_generation (genBound8 e) = g
            ∧ entry_bound (genBound8 e) ≠ BOUND_NONE) l)).
Proof.
  induction l as [|e l IH]; intros cnt.
  - simpl. lia.
  - cbn [foldl]. rewrite IH, filter_cons.
    destruct (occupied g e) eqn:Ho.
    + apply occupied_spec in Ho. rewrite decide_True by done.
      cbn [length Z.b2z]. lia.
    + rewrite decide_False.
      * cbn [Z.b2z]. lia.
      * intros Hp. apply occupied_spec in Hp. congruence.
Qed.

Lemma hashfull_loop_count tt n : ∀ s cnt,
  (s + n ≤ length (table tt))%nat →
  hashfull_loop tt (seq s n) cnt
  = Ok (cnt + Z.of_nat (length (filter
      (λ e, entry_generation (genBound8 e) = generation8 tt
            ∧ entry_bound (genBound8 e) ≠ BOUND_NONE)
      (concat (entry <$> take n (drop s (table tt))))))).
Proof.
  induction n as [|n IH]; intros s cnt Hlen.
  - simpl. f_equal. lia.
  - destruct (lookup_lt_is_Some_2 (table tt) s) as [c Hc]; [lia|].
    cbn [seq hashfull_loop]. unfold load. rewrite Hc. cbn [mbind Result_bind].
    rewrite IH by lia. rewrite hashfull_inner.
    rewrite (drop_S _ _ _ Hc). cbn [take fmap list_fmap concat].
    rewrite filter_app, length_app. f_equal. lia.
Qed.

Lemma length_concat_clusters (l : list Cluster) :
  Forall wf_Cluster l →
  length (concat (entry <$> l)) = (ClusterSize * length l)%nat.
Proof.
  induction 1 as [|c l Hc _ IH]; [done|].
  cbn [fmap list_fmap concat]. rewrite length_app, IH.
  unfold wf_Cluster in Hc. cbn [length]. lia.
Qed.

Lemma hashfull_unfold tt :
  (1000 ≤ length (table tt))%nat →
  hashfull tt
  = Ok (Z.of_nat (length (occupied_entries tt)) `quot` Z.of_nat ClusterSize).
Proof.
  intros Hlen. unfold hashfull.
  rewrite (hashfull_loop_count tt 1000 0 0) by lia.
  cbn [mbind Result_bind]. rewrite drop_0. reflexivity.
Qed.

(** C6: [hashfull] is the number of entries among the first 1000 clusters
    whose [genBound8] has generation bits equal to the current generation
    and bound bits other than [BOUND_NONE], divided by [ClusterSize], and it
    lies between 0 and 1000. *)
Theorem hashfull_permille tt :
  wf_TT tt → (1000 ≤ length (table tt))%nat →
  ∃ h, hashfull tt = Ok h
    ∧ h = Z.of_nat (length (occupied_entries tt)) / Z.of_nat ClusterSize
    ∧ 0 ≤ h ≤ 1000.
Proof.
  intros Hwf Hlen. rewrite (hashfull_unfold tt Hlen).
  assert (Hle : (length (occupied_entries tt) ≤ 3000)%nat).
  { unfold occupied_entries.
    etrans; [apply length_filter|].
    rewrite length_concat_clusters.
    - rewrite length_take. unfold ClusterSize. lia.
    - apply Forall_take, (wf_clusters _ Hwf). }
  eexists. split; [reflexivity|].
  rewrite Z.quot_div_nonneg by (unfold ClusterSize; lia).
  split; [reflexivity|]. unfold ClusterSize. split.
  - apply Z.div_pos; lia.
  - apply Z.div_le_upper_bound; lia.
Qed.

(** ** clear *)

Lemma memset_clusters_spec start len tt :
  0 ≤ start → 0 ≤ len → len * sizeof_Cluster < 2 ^ 64 →
  start + len ≤ Z.of_nat (length (table tt)) →
  ∃ tt', memset_clusters start len tt = Ok tt'
    ∧ clusterCount tt' = clusterCount tt
    ∧ generation8 tt' = generation8 tt
    ∧ length (table tt') = length (table tt)
    ∧ ∀ (i : nat) c, table tt !! i = Some c →
        table tt' !! i
        = Some (if decide (start ≤ Z.of_nat i < start + len)
                then zero_cluster else c).
Proof.
  intros Hs Hl Hb Hle. unfold memset_clusters.
  assert (Hn : size_t (len * sizeof_Cluster) / sizeof_Cluster = len).
  { unfold size_t, sizeof_Cluster in *. rewrite Z.mod_small by lia.
    apply Z.div_mul. lia. }
  rewrite Hn. rewrite decide_True by lia.
  eexists. split_and!; [reflexivity|reflexivity|reflexivity|..]; cbn [table].
  - rewrite !length_app, length_take, length_replicate, length_drop. lia.
  - intros i c Hi. pose proof (lookup_lt_Some _ _ _ Hi) as Hlt.
    destruct (decide (start ≤ Z.of_nat i < start + len)) as [Hin|Hout].
    + rewrite lookup_app_r by (rewrite length_take; lia).
      rewrite lookup_app_l by (rewrite length_take, length_replicate; lia).
      apply lookup_replicate_2. rewrite length_take. lia.
    + destruct (decide (Z.of_nat i < start)) as [Hlow|Hhigh].
      * rewrite lookup_app_l by (rewrite length_take; lia).
        rewrite lookup_take_lt by lia. done.
      * rewrite lookup_app_r by (rewrite length_take; lia).
        rewrite lookup_app_r by (rewrite length_take, length_replicate; lia).
        rewrite lookup_drop, length_take, length_replicate, <- Hi.
        f_equal. lia.
Qed.

Lemma clear_task_spec T idx tt :
  1 ≤ T → 0 ≤ idx < T →
  clusterCount tt = Z.of_nat (length (table tt)) →
  clusterCount tt * sizeof_Cluster < 2 ^ 64 →
  ∃ tt', clear_task T idx tt = Ok tt'
    ∧ clusterCount tt' = clusterCount tt
    ∧ generation8 tt' = generation8 tt
    ∧ length (table tt') = length (table tt)
    ∧ ∀ (i : nat) c, table tt !! i = Some c →
        table tt' !! i
        = Some (if decide (in_task_range T (clusterCount tt) idx (Z.of_nat i))
                then zero_cluster else c).
Proof.
  intros HT Hidx Hcount Hbytes. unfold clear_task.
  set (count := clusterCount tt) in *.
  assert (Hc0 : 0 ≤ count) by lia.
  assert (Hq : 0 ≤ count / T ≤ count).
  { split; [apply Z.div_pos; lia|]. apply Z.div_le_upper_bound; nia. }
  assert (HqT : count / T * T ≤ count).
  { pose proof (Z.mul_div_le count T). lia. }
  assert (Hstart : 0 ≤ count / T * idx ≤ count) by nia.
  assert (Hsmall : count < 2 ^ 64) by (unfold sizeof_Cluster in Hbytes; lia).
  assert (Hstride : size_t (count / T) = count / T).
  { unfold size_t. apply Z.mod_small. lia. }
  rewrite Hstride.
  assert (Hst : size_t (count / T * idx) = count / T * idx).
  { unfold size_t. apply Z.mod_small. lia. }
  rewrite Hst.
  destruct (decide (idx ≠ T - 1)) as [Hne|Heq].
  - destruct (memset_clusters_spec (count / T * idx) (count / T) tt)
      as (tt' & Hm & Hcc & Hg & Hlen & Hlook).
    + lia.
    + lia.
    + unfold sizeof_Cluster in *. lia.
    + nia.
    + exists tt'. split_and!; try done.
      intros i c Hi. rewrite (Hlook i c Hi). f_equal. apply decide_ext.
      unfold in_task_range. case_decide; [lia|done].
  - assert (Hlen' : size_t (count - count / T * idx) = count - count / T * idx).
    { unfold size_t. apply Z.mod_small. lia. }
    rewrite Hlen'.
    destruct (memset_clusters_spec (count / T * idx) (count - count / T * idx) tt)
      as (tt' & Hm & Hcc & Hg & Hlen & Hlook).
    + lia.
    + lia.
    + unfold sizeof_Cluster in *. lia.
    + lia.
    + exists tt'. split_and!; try done.
      intros i c Hi. rewrite (Hlook i c Hi). f_equal. apply decide_ext.
      unfold in_task_range. case_decide; [done|lia].
Qed.

(** Any run of thread bodies zeroes exactly the clusters of their ranges. *)
Lemma run_tasks_spec T order : ∀ tt,
  1 ≤ T → Forall (λ idx, 0 ≤ idx < T) order →
  clusterCount tt = Z.of_nat (length (table tt)) →
  clusterCount tt * sizeof_Cluster < 2 ^ 64 →
  ∃ tt', run_tasks T order tt = Ok tt'
    ∧ clusterCount tt' = clusterCount tt
    ∧ generation8 tt' = generation8 tt
    ∧ length (table tt') = length (table tt)
    ∧ ∀ (i : nat) c, table tt !! i = Some c →
        table tt' !! i
        = Some (if decide (Exists (λ idx, in_task_range T (clusterCount tt) idx
                                            (Z.of_nat i)) order)
                then zero_cluster else c).
Proof.
  induction order as [|idx order IH]; intros tt HT Hvalid Hcount Hbytes.
  - exists tt. split_and!; done.
  - apply Forall_cons in Hvalid as [Hidx Hvalid].
    destruct (clear_task_spec T idx tt HT Hidx Hcount Hbytes)
      as (tt1 & Ht & Hcc1 & Hg1 & Hlen1 & Hlook1).
    destruct (IH tt1 HT Hvalid) as (tt' & Hr & Hcc & Hg & Hlen & Hlook).
    { congruence. }
    { congruence. }
    exists tt'. cbn [run_tasks]. rewrite Ht. cbn [mbind Result_bind].
    split_and!; try congruence.
    intros i c Hi. rewrite (Hlook _ _ (Hlook1 i c Hi)), Hcc1.
    repeat case_decide; try done.
    + rewrite Exists_cons in *. tauto.
    + rewrite Exists_cons in *. tauto.
    + rewrite Exists_cons in *. tauto.
Qed.

(** The ranges of the [T] threads partition the clusters: every cluster
    lies in the range of exactly one thread. *)
Lemma task_ranges_partition T count i :
  1 ≤ T → 0 ≤ i < count →
  ∃ idx, (0 ≤ idx < T ∧ in_task_range T count idx i)
    ∧ ∀ idx', 0 ≤ idx' < T → in_task_range T count idx' i → idx' = idx.
Proof.
  intros HT Hi. unfold in_task_range.
  assert (Hq : 0 ≤ count / T) by (apply Z.div_pos; lia).
  assert (HqT : count / T * T ≤ count).
  { pose proof (Z.mul_div_le count T). lia. }
  destruct (decide (count / T = 0)) as [Hz|Hnz].
  - exists (T - 1). rewrite Hz. split.
    + rewrite decide_False by lia. lia.
    + intros idx' Hidx'. case_decide; lia.
  - destruct (decide (i / (count / T) < T - 1)) as [Hlt|Hge].
    + exists (i / (count / T)).
      assert (Hi0 : 0 ≤ i / (count / T)) by (apply Z.div_pos; lia).
      pose proof (Z.mul_div_le i (count / T)) as Hle.
      pose proof (Z.mul_succ_div_gt i (count / T)) as Hgt.
      split.
      * rewrite decide_True by lia. lia.
      * intros idx' Hidx'. case_decide; intros [Hlo Hhi]; nia.
    + exists (T - 1).
      assert (Hge' : count / T * (T - 1) ≤ i).
      { pose proof (Z.mul_div_le i (count / T)). nia. }
      split.
      * rewrite decide_False by lia. lia.
      * intros idx' Hidx'. case_decide; intros [Hlo Hhi]; [|lia].
        assert (i / (count / T) < idx' + 1); [|lia].
        apply Z.div_lt_upper_bound; lia.
Qed.

(** [clear] leaves every cluster zeroed, whatever the order of the threads. *)
Lemma run_tasks_zero T order tt :
  1 ≤ T → order ≡ₚ seqZ 0 T →
  clusterCount tt = Z.of_nat (length (table tt)) →
  clusterCount tt * sizeof_Cluster < 2 ^ 64 →
  ∃ tt', run_tasks T order tt = Ok tt'
    ∧ clusterCount tt' = clusterCount tt
    ∧ generation8 tt' = generation8 tt
    ∧ table tt' = replicate (length (table tt)) zero_cluster.
Proof.
  intros HT Hperm Hcount Hbytes.
  assert (Hvalid : Forall (λ idx, 0 ≤ idx < T) order).
  { rewrite Hperm. apply Forall_seqZ. lia. }
  destruct (run_tasks_spec T order tt HT Hvalid Hcount Hbytes)
    as (tt' & Hr & Hcc & Hg & Hlen & Hlook).
  exists tt'. split_and!; try done.
  apply list_eq_same_length with (length (table tt));
    [by rewrite length_replicate|done|].
  intros i x y Hi Hx Hy.
  apply lookup_replicate in Hy as [-> _].
  destruct (lookup_lt_is_Some_2 (table tt) i Hi) as [c Hc].
  rewrite (Hlook i c Hc) in Hx.
  rewrite decide_True in Hx; [congruence|].
  destruct (task_ranges_partition T (clusterCount tt) (Z.of_nat i))
    as (idx & [Hidx Hin] & _); [lia|lia|].
  apply Exists_exists. exists idx. split; [|done].
  rewrite Hperm. apply elem_of_seqZ. lia.
Qed.

Lemma clear_total T tt :
  clusterCount tt = Z.of_nat (length (table tt)) →
  clusterCount tt * sizeof_Cluster < 2 ^ 64 →
  ∃ tt', clear T tt = Ok tt'
    ∧ clusterCount tt' = clusterCount tt
    ∧ generation8 tt' = generation8 tt
    ∧ length (table tt') = length (table tt)
    ∧ (1 ≤ T → table tt' = replicate (length (table tt)) zero_cluster).
Proof.
  intros Hcount Hbytes. unfold clear.
  destruct (decide (1 ≤ T)) as [HT|HT].
  - destruct (run_tasks_zero T (seqZ 0 T) tt HT) as (tt' & Hr & Hcc & Hg & Ht);
      [done..|].
    exists tt'. split_and!; try done. by rewrite Ht, length_replicate.
  - exists tt. unfold seqZ. replace (Z.to_nat T) with 0%nat by lia.
    split_and!; done.
Qed.

(** ** resize *)

Lemma resize_count_bytes mbSize :
  0 ≤ size_t (mbSize * 1024 * 1024) / sizeof_Cluster
  ∧ size_t (mbSize * 1024 * 1024) / sizeof_Cluster * sizeof_Cluster < 2 ^ 64.
Proof.
  unfold size_t, sizeof_Cluster.
  pose proof (Z.mod_pos_bound (mbSize * 1024 * 1024) (2 ^ 64)) as Hm.
  pose proof (Z.mul_div_le ((mbSize * 1024 * 1024) mod 2 ^ 64) 32) as Hd.
  split; [apply Z.div_pos; lia|lia].
Qed.

Lemma resize_unfold alloc T mbSize tt mem :
  wf_Allocator alloc →
  alloc (size_t (size_t (mbSize * 1024 * 1024) / sizeof_Cluster * sizeof_Cluster))
    = Some mem →
  ∃ tt', resize alloc T mbSize tt = Ok tt'
    ∧ clusterCount tt' = size_t (mbSize * 1024 * 1024) / sizeof_Cluster
    ∧ clusterCount tt' = Z.of_nat (length (table tt'))
    ∧ generation8 tt' = generation8 tt
    ∧ (1 ≤ T →
       table tt' = replicate (Z.to_nat (clusterCount tt')) zero_cluster).
Proof.
  intros Halloc Hmem. unfold resize. rewrite Hmem.
  destruct (resize_count_bytes mbSize) as [Hc0 Hcb].
  set (count := size_t (mbSize * 1024 * 1024) / sizeof_Cluster) in *.
  destruct (Halloc _ _ Hmem) as [Hlen _].
  assert (Hcount : count = Z.of_nat (length mem)).
  { unfold size_t, sizeof_Cluster in Hlen. unfold sizeof_Cluster in Hcb.
    rewrite Z.mod_small in Hlen by lia. lia. }
  destruct (clear_total T (mkTT count mem (generation8 tt)))
    as (tt' & Hclear & Hcc & Hg & Hl & Hz); [done|done|].
  cbn [clusterCount table generation8] in *.
  exists tt'. split_and!; try done.
  - lia.
  - intros HT. rewrite (Hz HT), Hcc, Hcount. by rewrite Nat2Z.id.
Qed.

Lemma zero_clusters_unoccupied g n :
  filter (λ e, entry_generation (genBound8 e) = g
               ∧ entry_bound (genBound8 e) ≠ BOUND_NONE)
         (concat (entry <$> replicate n zero_cluster)) = [].
Proof.
  induction n as [|n IH]; [done|].
  cbn [replicate fmap list_fmap concat]. rewrite filter_app.
  change (list_fmap Cluster (list TTEntry) entry (replicate n zero_cluster))
    with (entry <$> replicate n zero_cluster).
  rewrite IH, app_nil_r.
  change (entry zero_cluster) with [zero_entry; zero_entry; zero_entry].
  rewrite !filter_cons, !decide_False; [done|..]; by intros [_ ?].
Qed.

(** C8: for every number of threads [T ≥ 1], after [resize] followed by
    [clear], in whatever order the threads run, every cluster is zero,
    padding included: the [T] ranges (all of [clusterCount / T] clusters but
    the last, which takes the rest) partition the table, each cluster lying
    in exactly one of them. So every entry is empty and [hashfull] is 0. *)
Theorem resize_clear_zero alloc T mbSize tt tt1 order :
  wf_Allocator alloc → 1 ≤ T → 1 ≤ mbSize < 2 ^ 44 →
  resize alloc T mbSize tt = Ok tt1 →
  order ≡ₚ seqZ 0 T →
  ∃ tt2,
    clear T tt1 = Ok tt2
    ∧ run_tasks T order tt1 = Ok tt2
    ∧ clusterCount tt2 = mbSize * 1024 * 1024 / sizeof_Cluster
    ∧ table tt2 = replicate (Z.to_nat (clusterCount tt2)) zero_cluster
    ∧ (∀ i, 0 ≤ i < clusterCount tt2 →
         ∃ idx, (0 ≤ idx < T ∧ in_task_range T (clusterCount tt2) idx i)
           ∧ ∀ idx', 0 ≤ idx' < T →
               in_task_range T (clusterCount tt2) idx' i → idx' = idx)
    ∧ (∀ p e, entry_at tt2 p = Some e → e = zero_entry ∧ is_empty e)
    ∧ hashfull tt2 = Ok 0.
Proof.
  intros Halloc HT Hmb Hres Hperm.
  destruct (alloc (size_t (size_t (mbSize * 1024 * 1024) / sizeof_Cluster
                           * sizeof_Cluster))) as [mem|] eqn:Hmem.
  2: { unfold resize in Hres. by rewrite Hmem in Hres. }
  destruct (resize_unfold alloc T mbSize tt mem Halloc Hmem)
    as (tt1' & Hres' & Hcc1 & Hlen1 & Hg1 & Hz1).
  assert (tt1' = tt1) as -> by congruence.
  destruct (resize_count_bytes mbSize) as [Hc0 Hcb].
  assert (Hsz : size_t (mbSize * 1024 * 1024) = mbSize * 1024 * 1024).
  { unfold size_t. apply Z.mod_small. lia. }
  rewrite Hsz in Hcc1, Hc0, Hcb.
  assert (Hbytes : clusterCount tt1 * sizeof_Cluster < 2 ^ 64) by by rewrite Hcc1.
  destruct (run_tasks_zero T order tt1 HT Hperm Hlen1 Hbytes)
    as (tt2 & Hrun & Hcc2 & Hg2 & Ht2).
  destruct (run_tasks_zero T (seqZ 0 T) tt1 HT (reflexivity _) Hlen1 Hbytes)
    as (tt2' & Hclear & Hcc2' & Hg2' & Ht2').
  assert (tt2' = tt2) as ->.
  { destruct tt2, tt2'. cbn [clusterCount table generation8] in *. congruence. }
  assert (Htab : table tt2 = replicate (Z.to_nat (clusterCount tt2)) zero_cluster).
  { rewrite Ht2, Hcc2, Hlen1. by rewrite Nat2Z.id. }
  assert (Hbig : 32768 ≤ clusterCount tt2).
  { rewrite Hcc2, Hcc1. unfold sizeof_Cluster.
    apply Z.div_le_lower_bound; lia. }
  exists tt2. split_and!.
  - exact Hclear.
  - exact Hrun.
  - congruence.
  - exact Htab.
  - intros i Hi. apply task_ranges_partition; [done|lia].
  - intros [ci i] e. unfold entry_at. cbn [fst snd]. rewrite Htab.
    destruct (replicate _ zero_cluster !! ci) as [c|] eqn:Hc; [|done].
    apply lookup_replicate in Hc as [-> _]. cbn [mbind option_bind].
    intros [-> _]%lookup_replicate. done.
  - rewrite hashfull_unfold.
    + unfold occupied_entries. rewrite Htab, take_replicate.
      rewrite zero_clusters_unoccupied. reflexivity.
    + rewrite Htab, length_replicate. lia.
Qed.

(** ** Failure *)

(** C7: the only operation that can fail is [resize], and only when the
    allocation fails: the process then writes the diagnostic to the standard
    error stream and terminates with a nonzero exit code, without another
    attempt; when the allocation succeeds [resize] completes, and [probe],
    [save], [clear] and [hashfull] always complete on a table that [resize]
    built. *)
Theorem only_allocation_fails alloc T mbSize DEPTH_OFFSET tt :
  wf_Allocator alloc →
  (alloc (size_t (size_t (mbSize * 1024 * 1024) / sizeof_Cluster * sizeof_Cluster))
     = None →
   resize alloc T mbSize tt
     = Exit EXIT_FAILURE
         ("Failed to allocate " ++ print_size_t mbSize
          ++ "MB for transposition table." ++ endl)%string
   ∧ EXIT_FAILURE ≠ 0)
  ∧ (∀ mem,
       alloc (size_t (size_t (mbSize * 1024 * 1024) / sizeof_Cluster
                      * sizeof_Cluster)) = Some mem →
       ∃ tt', resize alloc T mbSize tt = Ok tt')
  ∧ (wf_TT tt →
       (∀ key, is_Key key → ∃ found p tt', probe tt key = Ok (found, p, tt'))
       ∧ (∀ k v pv b d m ev, is_Key k →
            ∃ tt', save DEPTH_OFFSET tt k v pv b d m ev = Ok tt')
       ∧ (∃ tt', clear T tt = Ok tt')
       ∧ ((1000 ≤ length (table tt))%nat → ∃ h, hashfull tt = Ok h)).
Proof.
  intros Halloc. split_and!.
  - intros Hnone. unfold resize. rewrite Hnone. done.
  - intros mem Hmem.
    destruct (resize_unfold alloc T mbSize tt mem Halloc Hmem) as (tt' & Hr & _).
    eauto.
  - intros Hwf. split_and!.
    + intros key Hk.
      destruct (probe_unfold tt key Hwf Hk) as (c & _ & _ & _ & ->).
      destruct (list_find _ (entry c)) as [[i e]|]; eauto.
    + intros k v pv b d m ev Hk.
      destruct (save_unfold DEPTH_OFFSET tt k v pv b d m ev Hwf Hk)
        as (c & r & old & _ & _ & _ & _ & _ & ->).
      eauto.
    + destruct (clear_total T tt (wf_count _ Hwf) (wf_bytes _ Hwf))
        as (tt' & Hc & _).
      eauto.
    + intros Hlen. rewrite (hashfull_unfold tt Hlen). eauto.
Qed.

(** ** The invariant of the table *)

Lemma new_search_wf tt : wf_TT tt → wf_TT (new_search tt).
Proof.
  intros [Hc Hn Hb Hcl Hg Hl]. split; cbn [new_search clusterCount table generation8];
    try done.
  - unfold uint8_t. apply Z.mod_pos_bound. lia.
  - revert Hl. generalize (generation8 tt) Hg.
    refine (byte_cases _). vm_compute. reflexivity.
Qed.

Lemma probe_wf tt key found p tt' :
  wf_TT tt → is_Key key → probe tt key = Ok (found, p, tt') → wf_TT tt'.
Proof.
  intros Hwf Hk Hp.
  destruct (probe_unfold tt key Hwf Hk) as (c & Hc & _ & _ & Hpr).
  rewrite Hpr in Hp. destruct (list_find _ (entry c)) as [[i e]|].
  - injection Hp as <- <- <-. by apply set_cluster_wf.
  - by injection Hp as <- <- <-.
Qed.

Lemma resize_wf alloc T mbSize tt tt' :
  wf_Allocator alloc → 1 ≤ T → 1 ≤ mbSize < 2 ^ 44 →
  0 ≤ generation8 tt < 256 → Z.land (generation8 tt) 0x7 = 0 →
  resize alloc T mbSize tt = Ok tt' →
  wf_TT tt' ∧ (1000 ≤ length (table tt'))%nat.
Proof.
  intros Halloc HT Hmb Hg Hl Hres.
  destruct (alloc (size_t (size_t (mbSize * 1024 * 1024) / sizeof_Cluster
                           * sizeof_Cluster))) as [mem|] eqn:Hmem.
  2: { unfold resize in Hres. by rewrite Hmem in Hres. }
  destruct (resize_unfold alloc T mbSize tt mem Halloc Hmem)
    as (tt1 & Hres' & Hcc & Hlen & Hg1 & Hz).
  assert (tt1 = tt') as -> by congruence.
  destruct (resize_count_bytes mbSize) as [_ Hcb].
  assert (Hbig : 32768 ≤ clusterCount tt').
  { rewrite Hcc. unfold size_t, sizeof_Cluster. rewrite Z.mod_small by lia.
    apply Z.div_le_lower_bound; lia. }
  split; [split|]; try congruence; try lia.
  rewrite (Hz HT). apply Forall_replicate. reflexivity.
Qed.

(** ** The example tables *)

Lemma ex_tt_wf : wf_TT ex_tt.
Proof. wf_by_eval. Qed.



Lemma ex_full_tt_wf : wf_TT ex_full_tt.
Proof. wf_by_eval. Qed.

Lemma ex_big_wf : wf_TT ex_big.
Proof. wf_by_eval. Qed.

Lemma ex_alloc_wf : wf_Allocator ex_alloc.
Proof.
  intros bytes mem. unfold ex_alloc. case_decide as Hb; [|done].
  intros [= <-]. destruct Hb as [Hr Hm]. rewrite length_replicate. split.
  - unfold sizeof_Cluster in *.
    rewrite Z2Nat.id by (apply Z.div_pos; lia).
    pose proof (Z.div_mod bytes 32). lia.
  - apply Forall_replicate. reflexivity.
Qed.

(** ** The claims on the example tables *)

(** C1 as stated fails: a [probe] that misses returns the null pointer, not
    a pointer to the first entry of the key's cluster. *)
Lemma probe_miss_first_entry_counterexample :
  wf_TT ex_tt ∧ is_Key ex_other_key
  ∧ Forall (λ e, key16 e ≠ ex_other_key / 2 ^ 48) (cluster_of ex_tt ex_other_key)
  ∧ probe ex_tt ex_other_key = Ok (false, None, ex_tt)
  ∧ ¬ ∃ tt', probe ex_tt ex_other_key
             = Ok (false, Some (first_entry ex_tt ex_other_key, 0%nat), tt').
Proof.
  split_and!.
  - exact ex_tt_wf.
  - by vm_compute.
  - repeat constructor; by vm_compute.
  - reflexivity.
  - intros [tt' Hp]. vm_compute in Hp. discriminate Hp.
Qed.

(** C1 (as amended) on [ex_tt]. *)
Lemma probe_miss_null_witness :
  wf_TT ex_tt ∧ is_Key ex_other_key
  ∧ Forall (λ e, key16 e ≠ ex_other_key / 2 ^ 48) (cluster_of ex_tt ex_other_key)
  ∧ probe ex_tt ex_other_key = Ok (false, None, ex_tt).
Proof.
  assert (Hk : is_Key ex_other_key) by by_eval.
  assert (Hmiss : Forall (λ e, key16 e ≠ ex_other_key / 2 ^ 48)
                    (cluster_of ex_tt ex_other_key))
    by (repeat constructor; by vm_compute).
  split_and!; [exact ex_tt_wf|exact Hk|exact Hmiss|].
  exact (probe_miss_null ex_tt ex_other_key ex_tt_wf Hk Hmiss).
Defined.

(** C2 on [ex_tt]: a second [save] for [ex_key] without a move keeps the
    move stored before. *)
Lemma save_then_probe_witness :
  wf_TT ex_tt ∧ is_Key ex_key ∧ is_Value 50 ∧ is_Value (-4) ∧ is_Move 0
  ∧ is_Depth (-6) 12 ∧ BOUND_LOWER ≠ BOUND_NONE
  ∧ ∃ tt1 p tt2 e,
      save (-6) ex_tt ex_key 50 false BOUND_LOWER 12 0 (-4) = Ok tt1
      ∧ probe tt1 ex_key = Ok (true, Some p, tt2)
      ∧ entry_at tt2 p = Some e
      ∧ value16 e = 50 ∧ eval16 e = -4
      ∧ entry_bound (genBound8 e) = BOUND_LOWER
      ∧ entry_is_pv (genBound8 e) = false
      ∧ TTEntry_depth (-6) e = 12
      ∧ move16 e = 0x1234.
Proof.
  assert (Hk : is_Key ex_key) by by_eval.
  assert (Hv : is_Value 50) by by_eval.
  assert (Hev : is_Value (-4)) by by_eval.
  assert (Hm : is_Move 0) by by_eval.
  assert (Hd : is_Depth (-6) 12) by by_eval.
  assert (Hb : BOUND_LOWER ≠ BOUND_NONE) by done.
  split_and!; [exact ex_tt_wf|exact Hk|exact Hv|exact Hev|exact Hm|exact Hd|exact Hb|].
  destruct (save_then_probe (-6) ex_tt ex_key 50 false BOUND_LOWER 12 0 (-4)
              ex_tt_wf Hk Hv Hev Hm Hd Hb)
    as (tt1 & p & tt2 & e & Hs & Hp & He & H1 & H2 & H3 & H4 & H5 & H6).
  exists tt1, p, tt2, e.
  split_and!; first [assumption | rewrite H6; reflexivity].
Defined.

(** C3 on a full cluster of depths 2, 5 and 8 at one generation: no entry
    has the key's signature, none has [key16 = 0], and [save] overwrites the
    entry of depth 2. *)
Lemma save_victim_three_phases_witness :
  wf_TT ex_full_tt ∧ is_Key ex_key
  ∧ ∃ r victim tt',
      save (-6) ex_full_tt ex_key 50 false BOUND_LOWER 12 0 (-4) = Ok tt'
      ∧ cluster_of ex_full_tt ex_key !! r = Some victim
      ∧ entry_at tt' (first_entry ex_full_tt ex_key, r)
        = Some (write_entry (-6) (generation8 ex_full_tt) (key_sig ex_key)
                  50 false BOUND_LOWER 12 0 (-4) victim)
      ∧ (∀ q, q ≠ (first_entry ex_full_tt ex_key, r) →
           entry_at tt' q = entry_at ex_full_tt q)
      ∧ depth8 victim = 8
      ∧ (∀ e, e ∈ cluster_of ex_full_tt ex_key →
           rscore (generation8 ex_full_tt) victim
           ≤ rscore (generation8 ex_full_tt) e).
Proof.
  assert (Hk : is_Key ex_key) by by_eval.
  split_and!; [exact ex_full_tt_wf|exact Hk|].
  destruct (save_victim_three_phases (-6) ex_full_tt ex_key 50 false BOUND_LOWER
              12 0 (-4) ex_full_tt_wf Hk)
    as (r & victim & tt' & Hsave & _ & Hr & _ & Hnew & Hframe & _ & _ & Hlast).
  assert (Hnomatch : ∀ e, e ∈ cluster_of ex_full_tt ex_key →
                       key16 e ≠ key_sig ex_key).
  { intros e He.
    repeat (apply elem_of_cons in He as [->|He]; [by vm_compute|]).
    by apply elem_of_nil in He. }
  assert (Hnoempty : ∀ e, e ∈ cluster_of ex_full_tt ex_key → key16 e ≠ 0).
  { intros e He.
    repeat (apply elem_of_cons in He as [->|He]; [by vm_compute|]).
    by apply elem_of_nil in He. }
  destruct (Hlast Hnomatch Hnoempty) as (_ & Hmin & Hfirst).
  exists r, victim, tt'. split_and!; [exact Hsave|exact Hr|exact Hnew|exact Hframe| |exact Hmin].
  destruct r as [|[|[|r]]].
  - vm_compute in Hr. by injection Hr as <-.
  - exfalso. specialize (Hfirst 0%nat _ ltac:(lia) eq_refl).
    vm_compute in Hr. injection Hr as <-. vm_compute in Hfirst. done.
  - exfalso. specialize (Hfirst 0%nat _ ltac:(lia) eq_refl).
    vm_compute in Hr. injection Hr as <-. vm_compute in Hfirst. done.
  - vm_compute in Hr. discriminate Hr.
Defined.

(** C4 on [ex_tt]: the victim is the entry of [ex_key]; the move 0 leaves
    its move, the other fields are the new ones. *)
Lemma save_write_phase_witness :
  wf_TT ex_tt ∧ is_Key ex_key ∧ is_Value 50 ∧ is_Value (-4) ∧ is_Move 0
  ∧ is_Depth (-6) 12
  ∧ ∃ r old new tt',
      select_victim (generation8 ex_tt) (key_sig ex_key) (cluster_of ex_tt ex_key)
        = Some r
      ∧ entry_at ex_tt (first_entry ex_tt ex_key, r) = Some old
      ∧ save (-6) ex_tt ex_key 50 false BOUND_LOWER 12 0 (-4) = Ok tt'
      ∧ entry_at tt' (first_entry ex_tt ex_key, r) = Some new
      ∧ move16 new = move16 old
      ∧ key16 new = key_sig ex_key ∧ value16 new = 50 ∧ eval16 new = -4
      ∧ depth8 new = 12 - -6
      ∧ entry_generation (genBound8 new) = 16
      ∧ entry_is_pv (genBound8 new) = false
      ∧ entry_bound (genBound8 new) = BOUND_LOWER.
Proof.
  assert (Hk : is_Key ex_key) by by_eval.
  assert (Hv : is_Value 50) by by_eval.
  assert (Hev : is_Value (-4)) by by_eval.
  assert (Hm : is_Move 0) by by_eval.
  assert (Hd : is_Depth (-6) 12) by by_eval.
  split_and!; [exact ex_tt_wf|exact Hk|exact Hv|exact Hev|exact Hm|exact Hd|].
  destruct (save_write_phase (-6) ex_tt ex_key 50 false BOUND_LOWER 12 0 (-4)
              ex_tt_wf Hk Hv Hev Hm Hd)
    as (r & old & new & tt' & Hsel & Hold & Hs & Hnew & Hkeep & _ & H1 & H2
        & H3 & H4 & _ & H5 & H6 & H7 & _).
  exists r, old, new, tt'. split_and!; try assumption.
  apply Hkeep. split; [reflexivity|].
  vm_compute in Hsel. injection Hsel as <-. vm_compute in Hold.
  by injection Hold as <-.
Defined.

(** C5 on [ex_tt]: the hit moves the entry's generation from 8 to 16. *)
Lemma probe_hit_frame_witness :
  wf_TT ex_tt ∧ is_Key ex_key
  ∧ probe ex_tt ex_key = Ok (true, Some (1%nat, 1%nat), ex_tt_refreshed)
  ∧ ∃ e e',
      entry_at ex_tt (1%nat, 1%nat) = Some e
      ∧ entry_at ex_tt_refreshed (1%nat, 1%nat) = Some e'
      ∧ entry_generation (genBound8 e) = 8
      ∧ entry_generation (genBound8 e') = 16
      ∧ entry_is_pv (genBound8 e') = entry_is_pv (genBound8 e)
      ∧ entry_bound (genBound8 e') = entry_bound (genBound8 e)
      ∧ key16 e' = key16 e ∧ move16 e' = move16 e ∧ value16 e' = value16 e
      ∧ eval16 e' = eval16 e ∧ depth8 e' = depth8 e
      ∧ (∀ q, q ≠ (1%nat, 1%nat) →
           entry_at ex_tt_refreshed q = entry_at ex_tt q).
Proof.
  assert (Hk : is_Key ex_key) by by_eval.
  assert (Hp : probe ex_tt ex_key = Ok (true, Some (1%nat, 1%nat), ex_tt_refreshed))
    by reflexivity.
  split_and!; [exact ex_tt_wf|exact Hk|exact Hp|].
  destruct (probe_hit_frame ex_tt ex_key (1%nat, 1%nat) ex_tt_refreshed
              ex_tt_wf Hk Hp)
    as (e & e' & He & He' & _ & Hgen & _ & Hpv & Hb & H1 & H2 & H3 & H4 & H5
        & Hframe & _).
  exists e, e'. split_and!; try assumption.
  vm_compute in He. by injection He as <-.
Defined.

(** C6 on [ex_big]: 1000 occupied entries among 3000 are 333 per mille. *)
Lemma hashfull_permille_witness :
  wf_TT ex_big ∧ (1000 ≤ length (table ex_big))%nat
  ∧ ∃ h, hashfull ex_big = Ok h
      ∧ h = Z.of_nat (length (occupied_entries ex_big)) / Z.of_nat ClusterSize
      ∧ 0 ≤ h ≤ 1000.
Proof.
  assert (Hlen : (1000 ≤ length (table ex_big))%nat).
  { cbn [ex_big table]. rewrite length_replicate. reflexivity. }
  split_and!; [exact ex_big_wf|exact Hlen|].
  exact (hashfull_permille ex_big ex_big_wf Hlen).
Defined.

Lemma ex_alloc_one_megabyte :
  ex_alloc (size_t (size_t (1 * 1024 * 1024) / sizeof_Cluster * sizeof_Cluster))
  = Some (replicate (Z.to_nat (1048576 / sizeof_Cluster))
            (mkCluster (replicate ClusterSize ex_entry) [255; 255])).
Proof.
  change (size_t (size_t (1 * 1024 * 1024) / sizeof_Cluster * sizeof_Cluster))
    with 1048576.
  unfold ex_alloc. apply decide_True. by vm_compute.
Qed.

(** C7 with an allocator of 32 megabytes: 64 megabytes are refused and the
    process exits with status 1; one megabyte is granted; the operations on
    [ex_tt] complete. *)
Lemma only_allocation_fails_witness :
  wf_Allocator ex_alloc
  ∧ resize ex_alloc 4 64 ex_tt
    = Exit 1 ("Failed to allocate 64MB for transposition table." ++ endl)%string
  ∧ (∃ tt', resize ex_alloc 4 1 ex_tt = Ok tt')
  ∧ (∃ found p tt', probe ex_tt ex_key = Ok (found, p, tt'))
  ∧ (∃ tt', save (-6) ex_tt ex_key 50 false BOUND_LOWER 12 0 (-4) = Ok tt')
  ∧ (∃ tt', clear 4 ex_tt = Ok tt')
  ∧ (∃ h, hashfull ex_big = Ok h).
Proof.
  destruct (only_allocation_fails ex_alloc 4 64 (-6) ex_tt ex_alloc_wf)
    as (Hfail & _ & Hops).
  destruct (only_allocation_fails ex_alloc 4 1 (-6) ex_big ex_alloc_wf)
    as (_ & Hsucc & Hbig).
  destruct (Hops ex_tt_wf) as (Hprobe & Hsave & Hclear & _).
  destruct (Hbig ex_big_wf) as (_ & _ & _ & Hfull).
  assert (Hk : is_Key ex_key) by by_eval.
  split_and!.
  - exact ex_alloc_wf.
  - destruct (Hfail eq_refl) as [Hexit _]. exact Hexit.
  - destruct (only_allocation_fails ex_alloc 4 1 (-6) ex_tt ex_alloc_wf)
      as (_ & Hone & _).
    exact (Hone _ ex_alloc_one_megabyte).
  - exact (Hprobe ex_key Hk).
  - exact (Hsave ex_key 50 false BOUND_LOWER 12 0 (-4) Hk).
  - exact Hclear.
  - apply Hfull. cbn [ex_big table]. rewrite length_replicate. reflexivity.
Defined.

(** C8 with four threads finishing in the order 3, 1, 0, 2. *)
Lemma resize_clear_zero_witness :
  wf_Allocator ex_alloc ∧ 1 ≤ 4 ∧ 1 ≤ 1 < 2 ^ 44
  ∧ [3; 1; 0; 2] ≡ₚ seqZ 0 4
  ∧ ∃ tt1 tt2,
      resize ex_alloc 4 1 ex_tt = Ok tt1
      ∧ clear 4 tt1 = Ok tt2
      ∧ run_tasks 4 [3; 1; 0; 2] tt1 = Ok tt2
      ∧ clusterCount tt2 = 32768
      ∧ table tt2 = replicate (Z.to_nat (clusterCount tt2)) zero_cluster
      ∧ (∀ p e, entry_at tt2 p = Some e → e = zero_entry ∧ is_empty e)
      ∧ hashfull tt2 = Ok 0.
Proof.
  assert (HT : 1 ≤ 4) by lia.
  assert (Hmb : 1 ≤ 1 < 2 ^ 44) by lia.
  assert (Hperm : [3; 1; 0; 2] ≡ₚ seqZ 0 4).
  { change (seqZ 0 4) with [0; 1; 2; 3].
    apply (bool_decide_unpack _). by vm_compute. }
  refine (conj ex_alloc_wf (conj HT (conj Hmb (conj Hperm _)))).
  destruct (resize_unfold ex_alloc 4 1 ex_tt _ ex_alloc_wf ex_alloc_one_megabyte)
    as (tt1 & Hres & _).
  destruct (resize_clear_zero ex_alloc 4 1 ex_tt tt1 [3; 1; 0; 2]
              ex_alloc_wf HT Hmb Hres Hperm)
    as (tt2 & Hclear & Hrun & Hcc & Htab & _ & Hempty & Hfull).
  exists tt1, tt2. split_and!; try assumption.
Defined.

(** C9 on a full cluster: both scans fail, the last pass starts from the
    first entry and [save] writes the entry it ends on. *)
Lemma save_replace_assigned_witness :
  wf_TT ex_full_tt ∧ is_Key ex_key
  ∧ ∃ r old tt',
      select_victim (generation8 ex_full_tt) (key_sig ex_key)
        (cluster_of ex_full_tt ex_key) = Some r
      ∧ (r < ClusterSize)%nat
      ∧ entry_at ex_full_tt (first_entry ex_full_tt ex_key, r) = Some old
      ∧ (∃ e0 rest, cluster_of ex_full_tt ex_key = e0 :: rest
           ∧ r = (least_valuable_from (generation8 ex_full_tt) (0%nat, e0) 1
                    rest).1)
      ∧ save (-6) ex_full_tt ex_key 50 false BOUND_LOWER 12 0 (-4) = Ok tt'
      ∧ entry_at tt' (first_entry ex_full_tt ex_key, r)
        = Some (write_entry (-6) (generation8 ex_full_tt) (key_sig ex_key)
                  50 false BOUND_LOWER 12 0 (-4) old)
      ∧ wf_TT tt'.
Proof.
  assert (Hk : is_Key ex_key) by by_eval.
  split_and!; [exact ex_full_tt_wf|exact Hk|].
  destruct (save_replace_assigned (-6) ex_full_tt ex_key 50 false BOUND_LOWER
              12 0 (-4) ex_full_tt_wf Hk)
    as (r & old & tt' & Hsel & Hr & Hold & Hseed & Hsave & Hnew & Hwf).
  exists r, old, tt'. split_and!; try assumption.
  apply Hseed; reflexivity.
Defined.



(** * Further properties of the table *)

(** ** probe *)

(** X1: [probe] reports [found] exactly when the key's cluster holds an
    entry whose [key16] is the key's high 16 bits; the pointer it returns is
    null exactly when it reports a miss, and on a hit it points, inside the
    key's cluster, to the first such entry in scan order. *)
Theorem probe_found_iff_match tt key :
  wf_TT tt → is_Key key →
  ∃ found p tt',
    probe tt key = Ok (found, p, tt')
    ∧ (found = true ↔ ∃ e, e ∈ cluster_of tt key ∧ key16 e = key / 2 ^ 48)
    ∧ (p = None ↔ found = false)
    ∧ ∀ q, p = Some q →
        q.1 = first_entry tt key ∧ (q.2 < ClusterSize)%nat
        ∧ (∃ e', entry_at tt' q = Some e' ∧ key16 e' = key / 2 ^ 48)
        ∧ ∀ j e, (j < q.2)%nat → cluster_of tt key !! j = Some e →
            key16 e ≠ key / 2 ^ 48.
Proof.
  intros Hwf Hk.
  destruct (probe_unfold tt key Hwf Hk) as (c & Hc & Hwc & Hco & Hpr).
  rewrite Hpr, Hco, <- (key_sig_high_bits key Hk).
  destruct (list_find _ (entry c)) as [[i e]|] eqn:Hfind.
  - apply list_find_Some in Hfind as (Hi & Hkey & Hleast).
    eexists true, _, _. split_and!; [reflexivity| | |].
    + split; [|done]. intros _. exists e. split; [|done].
      by eapply list_elem_of_lookup_2.
    + split; intros; discriminate.
    + intros q [= <-]. cbn [fst snd]. split_and!.
      * reflexivity.
      * apply lookup_lt_Some in Hi. unfold wf_Cluster in Hwc. lia.
      * eexists. split; [by eapply entry_at_set_same|]. exact Hkey.
      * intros j e0 Hj He0. by eapply Hleast.
  - eexists false, None, tt. split_and!; [reflexivity| | |].
    + split; [discriminate|]. intros (e & Hin & He).
      apply list_find_None in Hfind. rewrite Forall_forall in Hfind.
      by destruct (Hfind e Hin).
    + done.
    + intros q [=].
Qed.

(** X2: a second [probe] of the same key returns what the first returned
    and leaves the table as the first left it: refreshing an entry twice is
    refreshing it once. *)
Theorem probe_twice tt key found p tt' :
  wf_TT tt → is_Key key →
  probe tt key = Ok (found, p, tt') →
  probe tt' key = Ok (found, p, tt').
Proof.
  intros Hwf Hk Hp.
  destruct (probe_unfold tt key Hwf Hk) as (c & Hc & Hwc & Hco & Hpr).
  rewrite Hpr in Hp.
  destruct (list_find _ (entry c)) as [[i e]|] eqn:Hfind.
  2: { injection Hp as <- <- <-. exact Hpr. }
  injection Hp as <- <- <-.
  apply list_find_Some in Hfind as (Hi & Hkey & Hleast).
  set (x := uint8_t (Z.lor (generation8 tt) (Z.land (genBound8 e) 0x7))).
  set (e' := set_genBound8 x e).
  set (tt' := set_cluster (first_entry tt key) (set_entry i e' c) tt).
  assert (Hwf' : wf_TT tt') by by apply set_cluster_wf.
  destruct (probe_unfold tt' key Hwf' Hk) as (c1 & Hc1 & _ & _ & Hpr').
  assert (c1 = set_entry i e' c) as ->.
  { unfold tt' in Hc1. rewrite first_entry_set_cluster in Hc1.
    cbn [set_cluster table] in Hc1.
    rewrite list_lookup_insert_eq in Hc1 by by eapply lookup_lt_Some.
    congruence. }
  assert (Hfind' : list_find (λ e, key16 e = key_sig key)
                     (entry (set_entry i e' c)) = Some (i, e')).
  { apply list_find_Some. cbn [set_entry entry]. split_and!.
    - apply list_lookup_insert_eq. by eapply lookup_lt_Some.
    - exact Hkey.
    - intros j e0 Hj Hlt. rewrite list_lookup_insert_ne in Hj by lia.
      by eapply Hleast. }
  rewrite Hpr', Hfind'.
  destruct (refresh_bits (generation8 tt) (genBound8 e)
              (wf_gen_range _ Hwf) (wf_gen_low _ Hwf)) as [Hlow _].
  fold x in Hlow.
  assert (He' : set_genBound8
            (uint8_t (Z.lor (generation8 tt') (Z.land (genBound8 e') 0x7))) e'
          = e').
  { unfold e' at 1 2. cbn [set_genBound8 genBound8 tt' set_cluster generation8].
    rewrite Hlow. reflexivity. }
  rewrite He'. change (first_entry tt' key) with (first_entry tt key).
  do 2 f_equal.
  unfold tt', set_cluster, set_entry. cbn [table entry padding clusterCount generation8].
  by rewrite !list_insert_insert_eq.
Qed.

(** X3: a hit makes the entry as hard to replace as an entry of its depth
    can be: its replacement score at the current generation becomes its
    [depth8], and is not smaller than it was. *)
Theorem probe_hit_raises_rscore tt key p tt' :
  wf_TT tt → is_Key key →
  probe tt key = Ok (true, Some p, tt') →
  ∃ e e',
    entry_at tt p = Some e ∧ entry_at tt' p = Some e'
    ∧ rscore (generation8 tt) e' = depth8 e
    ∧ rscore (generation8 tt) e ≤ rscore (generation8 tt) e'.
Proof.
  intros Hwf Hk Hp.
  destruct (probe_unfold tt key Hwf Hk) as (c & Hc & Hwc & Hco & Hpr).
  rewrite Hpr in Hp.
  destruct (list_find _ (entry c)) as [[i e]|] eqn:Hfind; [|done].
  injection Hp as <- <-.
  apply list_find_Some in Hfind as (Hi & Hkey & _).
  assert (Hage : Z.land (263 + generation8 tt
                   - uint8_t (Z.lor (generation8 tt) (Z.land (genBound8 e) 0x7)))
                   0xF8 = 0).
  { assert (Hy : 0 ≤ Z.land (genBound8 e) 0x7 < 8).
    { change 0x7 with (Z.ones 3). rewrite Z.land_ones by lia.
      apply Z.mod_pos_bound. lia. }
    revert Hy. generalize (Z.land (genBound8 e) 0x7). intros y Hy.
    pose proof (wf_gen_range _ Hwf) as Hg. pose proof (wf_gen_low _ Hwf) as Hl.
    revert Hg Hl. generalize (generation8 tt). intros g Hg. revert g Hg.
    assert (Hc8 : y = 0 ∨ y = 1 ∨ y = 2 ∨ y = 3 ∨ y = 4 ∨ y = 5 ∨ y = 6 ∨ y = 7)
      by lia.
    destruct Hc8 as [->|[->|[->|[->|[->|[->|[->| ->]]]]]]];
      (refine (byte_cases _); vm_compute; reflexivity). }
  eexists e, _. split_and!.
  - by rewrite (entry_at_lookup _ _ _ _ Hc).
  - by eapply entry_at_set_same.
  - unfold rscore. cbn [set_genBound8 genBound8 depth8]. rewrite Hage. lia.
  - unfold rscore. cbn [set_genBound8 genBound8 depth8]. rewrite Hage.
    assert (0 ≤ Z.land (263 + generation8 tt - genBound8 e) 0xF8).
    { apply Z.land_nonneg. right. lia. }
    lia.
Qed.

(** X11: [clear] forgets every entry but keeps the generation: after it,
    [probe] misses every key whose high 16 bits are not zero, and hits, on
    an entry nobody saved, exactly the keys whose high 16 bits are zero. *)
Theorem clear_then_probe T tt key :
  wf_TT tt → 1 ≤ T → is_Key key →
  ∃ tt1 p tt2,
    clear T tt = Ok tt1
    ∧ wf_TT tt1
    ∧ generation8 tt1 = generation8 tt
    ∧ probe tt1 key = Ok (bool_decide (key / 2 ^ 48 = 0), p, tt2)
    ∧ (key / 2 ^ 48 ≠ 0 → p = None ∧ tt2 = tt1).
Proof.
  intros Hwf HT Hk.
  destruct (clear_total T tt (wf_count _ Hwf) (wf_bytes _ Hwf))
    as (tt1 & Hclear & Hcc & Hg & Hlen & Hz).
  specialize (Hz HT).
  assert (Hwf1 : wf_TT tt1).
  { destruct Hwf as [Hc Hn Hb Hcl Hgr Hgl]. split; try congruence.
    rewrite Hz. apply Forall_replicate. reflexivity. }
  destruct (probe_unfold tt1 key Hwf1 Hk) as (c & Hc & _ & _ & Hpr).
  rewrite Hz in Hc. apply lookup_replicate in Hc as [-> _].
  change (entry zero_cluster) with [zero_entry; zero_entry; zero_entry] in Hpr.
  rewrite <- (key_sig_high_bits key Hk).
  destruct (decide (key_sig key = 0)) as [Hsig|Hsig].
  - eexists tt1, _, _. split_and!; [done..| |done].
    rewrite Hpr. cbn [list_find]. rewrite decide_True by (by rewrite Hsig).
    rewrite bool_decide_eq_true_2 by done. reflexivity.
  - exists tt1, None, tt1. split_and!; [done..| |done].
    rewrite Hpr. cbn [list_find].
    rewrite !decide_False by (cbn [zero_entry key16]; congruence).
    rewrite bool_decide_eq_false_2 by done. reflexivity.
Qed.

(** ** The replacement score *)

Lemma age_table :
  Forall (λ g, Forall (λ gb,
            Z.land g 0x7 = 0 →
            Z.land (263 + g - gb) 0xF8 = 8 * ((g / 8 - gb / 8) mod 32))
          (seqZ 0 256))
    (seqZ 0 256).
Proof. apply (bool_decide_unpack _). vm_compute. reflexivity. Qed.

(** X4: the replacement score is the entry's [depth8] minus 8 times its
    relative age, the number of generations (of the 32 the counter cycles
    through) since the entry was written or refreshed; the pv flag and the
    bound stored in the same byte do not enter it, and it is right after
    the generation counter has wrapped. *)
Theorem rscore_relative_age g e :
  0 ≤ g < 256 → Z.land g 0x7 = 0 → 0 ≤ genBound8 e < 256 →
  rscore g e = depth8 e - 8 * ((g / 8 - genBound8 e / 8) mod 32)
  ∧ depth8 e - 248 ≤ rscore g e ≤ depth8 e.
Proof.
  intros Hg Hl Hgb.
  pose proof age_table as Ht. rewrite Forall_seqZ in Ht.
  specialize (Ht g ltac:(lia)). rewrite Forall_seqZ in Ht.
  specialize (Ht (genBound8 e) ltac:(lia) Hl).
  unfold rscore. rewrite Ht.
  pose proof (Z.mod_pos_bound (g / 8 - genBound8 e / 8) 32). lia.
Qed.

(** ** save and other keys *)

Lemma list_find_insert_irrelevant {A} (P : A → Prop) `{∀ x, Decision (P x)}
    (l : list A) : ∀ i x y,
  l !! i = Some x → ¬ P x → ¬ P y → list_find P (<[i:=y]> l) = list_find P l.
Proof.
  induction l as [|a l IH]; intros [|i] x y Hi Hx Hy; simplify_eq/=.
  - by rewrite !decide_False.
  - destruct (decide (P a)); [done|]. by erewrite IH.
Qed.

Lemma probe_same_cluster_and_signature tt key key' :
  first_entry tt key' = first_entry tt key → key_sig key' = key_sig key →
  probe tt key' = probe tt key.
Proof. intros Hf Hs. unfold probe. by rewrite Hf, Hs. Qed.

(** After [save] for [k], the cluster holds the new entry at the victim's
    slot and [probe] of a key of the same cluster and signature finds it. *)
Lemma save_then_probe_same_signature DEPTH_OFFSET tt k k' v pv b d m ev :
  wf_TT tt → is_Key k → is_Key k' →
  first_entry tt k' = first_entry tt k → key_sig k' = key_sig k →
  ∃ c r old,
    table tt !! first_entry tt k = Some c
    ∧ select_victim (generation8 tt) (key_sig k) (entry c) = Some r
    ∧ entry c !! r = Some old
    ∧ save DEPTH_OFFSET tt k v pv b d m ev
      = Ok (set_cluster (first_entry tt k)
              (set_entry r (write_entry DEPTH_OFFSET (generation8 tt) (key_sig k)
                              v pv b d m ev old) c) tt)
    ∧ ∃ tt2,
        probe (set_cluster (first_entry tt k)
                 (set_entry r (write_entry DEPTH_OFFSET (generation8 tt) (key_sig k)
                                 v pv b d m ev old) c) tt) k'
        = Ok (true, Some (first_entry tt k, r), tt2)
        ∧ entry_at tt2 (first_entry tt k, r)
          = Some (write_entry DEPTH_OFFSET (generation8 tt) (key_sig k)
                    v pv b d m ev old).
Proof.
  intros Hwf Hk Hk' Hfe Hsig.
  destruct (save_unfold DEPTH_OFFSET tt k v pv b d m ev Hwf Hk)
    as (c & r & old & Hc & Hwc & Hco & Hsel & Hr & Hsave).
  exists c, r, old. split_and!; [done..|].
  set (new := write_entry DEPTH_OFFSET (generation8 tt) (key_sig k)
                v pv b d m ev old) in *.
  set (tt1 := set_cluster (first_entry tt k) (set_entry r new c) tt) in *.
  assert (Hwf1 : wf_TT tt1) by by apply set_cluster_wf.
  rewrite (probe_same_cluster_and_signature tt1 k k') by done.
  destruct (probe_unfold tt1 k Hwf1 Hk) as (c1 & Hc1 & _ & _ & Hprobe).
  assert (c1 = set_entry r new c) as ->.
  { unfold tt1 in Hc1. rewrite first_entry_set_cluster in Hc1.
    cbn [set_cluster table] in Hc1.
    rewrite list_lookup_insert_eq in Hc1 by by eapply lookup_lt_Some.
    congruence. }
  assert (Hfind : list_find (λ e, key16 e = key_sig k)
                    (entry (set_entry r new c)) = Some (r, new)).
  { apply list_find_Some. cbn [set_entry entry]. split_and!.
    - apply list_lookup_insert_eq. by eapply lookup_lt_Some.
    - reflexivity.
    - intros j e Hj Hlt. rewrite list_lookup_insert_ne in Hj by lia.
      by eapply select_victim_no_earlier_match. }
  rewrite Hfind in Hprobe.
  destruct (pack_unpack (generation8 tt) pv b
              (wf_gen_range _ Hwf) (wf_gen_low _ Hwf)) as (_ & _ & _ & Hrefresh).
  eexists. split; [exact Hprobe|].
  change (first_entry tt1 k) with (first_entry tt k).
  erewrite entry_at_set_same; [|exact Hc1|].
  - f_equal. unfold new at 1 2.
    cbn [set_genBound8 write_entry genBound8 key16 move16 value16 eval16 depth8
         tt1 set_cluster generation8].
    rewrite Hrefresh. reflexivity.
  - cbn [set_entry entry]. apply list_lookup_insert_eq. by eapply lookup_lt_Some.
Qed.

(** X6: the table tells keys apart by their cluster and their high 16 bits
    only: after [save] for [k], [probe] of any key [k'] of the same cluster
    and the same high 16 bits is a hit that returns what was saved for [k]. *)
Theorem save_then_probe_collision DEPTH_OFFSET tt k k' v pv b d m ev :
  wf_TT tt → is_Key k → is_Key k' → is_Value v → is_Value ev →
  is_Depth DEPTH_OFFSET d →
  first_entry tt k' = first_entry tt k → k' / 2 ^ 48 = k / 2 ^ 48 →
  ∃ tt1 p tt2 e,
    save DEPTH_OFFSET tt k v pv b d m ev = Ok tt1
    ∧ probe tt1 k' = Ok (true, Some p, tt2)
    ∧ entry_at tt2 p = Some e
    ∧ value16 e = v ∧ eval16 e = ev
    ∧ entry_bound (genBound8 e) = b
    ∧ entry_is_pv (genBound8 e) = pv
    ∧ TTEntry_depth DEPTH_OFFSET e = d.
Proof.
  intros Hwf Hk Hk' Hv Hev Hd Hfe Hhi.
  assert (Hsig : key_sig k' = key_sig k) by by rewrite !key_sig_high_bits.
  destruct (save_then_probe_same_signature DEPTH_OFFSET tt k k' v pv b d m ev
              Hwf Hk Hk' Hfe Hsig)
    as (c & r & old & Hc & Hsel & Hr & Hsave & tt2 & Hprobe & He).
  destruct (pack_unpack (generation8 tt) pv b
              (wf_gen_range _ Hwf) (wf_gen_low _ Hwf)) as (_ & Hpv & Hb & _).
  eexists _, _, tt2, _. split_and!; [exact Hsave|exact Hprobe|exact He|..].
  - by apply int16_t_id.
  - by apply int16_t_id.
  - exact Hb.
  - exact Hpv.
  - unfold TTEntry_depth. cbn [write_entry depth8].
    rewrite uint8_t_id by exact Hd. lia.
Qed.

(** X5: [save] for [k] disturbs no other key unless it has to evict: when
    the cluster of [k] already holds an entry for [k], or holds an entry
    with [key16 = 0], [probe] of a key [k'] with other high 16 bits (not
    zero, in the second case) returns after the [save] what it returned
    before it: the same flag, the same pointer, the same entry. *)
Theorem save_keeps_other_keys DEPTH_OFFSET tt k k' v pv b d m ev found p tt2 :
  wf_TT tt → is_Key k → is_Key k' →
  k' / 2 ^ 48 ≠ k / 2 ^ 48 →
  ((∃ e, e ∈ cluster_of tt k ∧ key16 e = k / 2 ^ 48)
   ∨ (k' / 2 ^ 48 ≠ 0 ∧ ∃ e, e ∈ cluster_of tt k ∧ key16 e = 0)) →
  probe tt k' = Ok (found, p, tt2) →
  ∃ tt1 tt2',
    save DEPTH_OFFSET tt k v pv b d m ev = Ok tt1
    ∧ probe tt1 k' = Ok (found, p, tt2')
    ∧ ∀ q, p = Some q → entry_at tt2' q = entry_at tt2 q.
Proof.
  intros Hwf Hk Hk' Hne Hroom Hp.
  rewrite <- !key_sig_high_bits in Hne, Hroom by done.
  destruct (save_unfold DEPTH_OFFSET tt k v pv b d m ev Hwf Hk)
    as (c & r & old & Hc & Hwc & Hco & Hsel & Hr & Hsave).
  rewrite Hco in Hroom.
  set (new := write_entry DEPTH_OFFSET (generation8 tt) (key_sig k)
                v pv b d m ev old) in *.
  set (tt1 := set_cluster (first_entry tt k) (set_entry r new c) tt) in *.
  assert (Hwf1 : wf_TT tt1) by by apply set_cluster_wf.
  assert (Hold : key16 old ≠ key_sig k').
  { destruct (select_victim_cases (generation8 tt) (key_sig k) (entry c))
      as [(i & e & Hf & Hs)|[(Hnone & i & e & Hf & Hs)|(Hnone & Hnone0 & _)]].
    - rewrite Hs in Hsel. injection Hsel as ->.
      apply list_find_Some in Hf as (Hi & Hkey & _).
      assert (e = old) as -> by congruence. congruence.
    - rewrite Hs in Hsel. injection Hsel as ->.
      apply list_find_Some in Hf as (Hi & Hkey & _).
      assert (e = old) as -> by congruence.
      destruct Hroom as [(e' & Hin & He')|[Hnz _]]; [|congruence].
      apply list_find_None in Hnone. rewrite Forall_forall in Hnone.
      by destruct (Hnone e' Hin).
    - apply list_find_None in Hnone. rewrite Forall_forall in Hnone.
      apply list_find_None in Hnone0. rewrite Forall_forall in Hnone0.
      destruct Hroom as [(e' & Hin & He')|[_ (e' & Hin & He')]].
      + by destruct (Hnone e' Hin).
      + by destruct (Hnone0 e' Hin). }
  assert (Hnew : key16 new ≠ key_sig k') by (cbn [new write_entry key16]; congruence).
  destruct (probe_unfold tt k' Hwf Hk') as (c' & Hc' & _ & _ & Hpr).
  destruct (probe_unfold tt1 k' Hwf1 Hk') as (c1 & Hc1 & _ & _ & Hpr1).
  change (first_entry tt1 k') with (first_entry tt k') in *.
  assert (Hsame : list_find (λ e, key16 e = key_sig k') (entry c1)
                  = list_find (λ e, key16 e = key_sig k') (entry c')).
  { unfold tt1 in Hc1. cbn [set_cluster table] in Hc1.
    destruct (decide (first_entry tt k' = first_entry tt k)) as [Heq|Hdiff].
    - rewrite Heq in Hc1, Hc'.
      rewrite list_lookup_insert_eq in Hc1 by by eapply lookup_lt_Some.
      assert (c' = c) as -> by congruence.
      injection Hc1 as <-. cbn [set_entry entry].
      by eapply list_find_insert_irrelevant.
    - rewrite list_lookup_insert_ne in Hc1 by done. congruence. }
  exists tt1. rewrite Hpr1, Hsame. rewrite Hpr in Hp.
  destruct (list_find _ (entry c')) as [[i e]|] eqn:Hfind.
  - injection Hp as <- <- <-. eexists. split_and!; [exact Hsave|reflexivity|].
    intros q [= <-].
    apply list_find_Some in Hfind as (Hi & _).
    apply list_find_Some in Hsame as (Hi1 & _).
    change (generation8 tt1) with (generation8 tt).
    rewrite (entry_at_set_same tt1 _ c1 i _ e Hc1 Hi1).
    rewrite (entry_at_set_same tt _ c' i _ e Hc' Hi). reflexivity.
  - injection Hp as <- <- <-. exists tt1.
    split_and!; [exact Hsave|reflexivity|]. intros q [=].
Qed.

(** ** save and hashfull *)

(** X7: the entry [save] writes, the victim of its three passes and the
    only entry of the table it changes, lies in the key's cluster and
    carries the key's high 16 bits, the saved bound and, whatever the bound,
    the current generation; [hashfull] counts it exactly when the saved
    bound is not [BOUND_NONE]. *)
Theorem save_entry_counted DEPTH_OFFSET tt k v pv b d m ev :
  wf_TT tt → is_Key k →
  ∃ r old new tt',
    save DEPTH_OFFSET tt k v pv b d m ev = Ok tt'
    ∧ select_victim (generation8 tt) (key_sig k) (cluster_of tt k) = Some r
    ∧ entry_at tt (first_entry tt k, r) = Some old
    ∧ new = write_entry DEPTH_OFFSET (generation8 tt) (key_sig k)
              v pv b d m ev old
    ∧ entry_at tt' (first_entry tt k, r) = Some new
    ∧ (∀ q, q ≠ (first_entry tt k, r) → entry_at tt' q = entry_at tt q)
    ∧ generation8 tt' = generation8 tt
    ∧ key16 new = k / 2 ^ 48
    ∧ entry_generation (genBound8 new) = generation8 tt'
    ∧ entry_bound (genBound8 new) = b
    ∧ (occupied (generation8 tt') new = true ↔ b ≠ BOUND_NONE).
Proof.
  intros Hwf Hk.
  destruct (save_unfold DEPTH_OFFSET tt k v pv b d m ev Hwf Hk)
    as (c & r & old & Hc & Hwc & Hco & Hsel & Hr & Hsave).
  destruct (pack_unpack (generation8 tt) pv b
              (wf_gen_range _ Hwf) (wf_gen_low _ Hwf)) as (Hgen & _ & Hb & _).
  eexists r, old, _, _. split_and!.
  - exact Hsave.
  - by rewrite Hco.
  - by rewrite (entry_at_lookup _ _ _ _ Hc).
  - reflexivity.
  - by eapply entry_at_set_same.
  - intros q Hq. by apply entry_at_set_other.
  - reflexivity.
  - cbn [write_entry key16]. by apply key_sig_high_bits.
  - exact Hgen.
  - exact Hb.
  - rewrite occupied_spec. cbn [set_cluster generation8 write_entry genBound8].
    rewrite Hgen, Hb. tauto.
Qed.

Lemma length_filter_all {A} (P : A → Prop) `{∀ x, Decision (P x)} (l : list A) :
  length (filter P l) = length l ↔ Forall P l.
Proof.
  induction l as [|a l IH].
  - split; [constructor|done].
  - rewrite filter_cons. destruct (decide (P a)) as [Ha|Ha].
    + cbn [length]. rewrite Forall_cons. split.
      * intros Hl. split; [done|]. apply IH. lia.
      * intros [_ Hl]. apply IH in Hl. lia.
    + pose proof (length_filter P l). cbn [length]. split; [lia|].
      intros [? _]%Forall_cons. done.
Qed.

(** X8: [hashfull] reports 1000 only for a sample that is entirely
    occupied: every entry of the first 1000 clusters carries the current
    generation and a bound other than [BOUND_NONE]. *)
Theorem hashfull_full_iff tt :
  wf_TT tt → (1000 ≤ length (table tt))%nat →
  hashfull tt = Ok 1000
  ↔ Forall (λ e, entry_generation (genBound8 e) = generation8 tt
                 ∧ entry_bound (genBound8 e) ≠ BOUND_NONE)
      (concat (entry <$> take 1000 (table tt))).
Proof.
  intros Hwf Hlen. rewrite (hashfull_unfold tt Hlen).
  rewrite <- (length_filter_all
                (λ e, entry_generation (genBound8 e) = generation8 tt
                      ∧ entry_bound (genBound8 e) ≠ BOUND_NONE) _).
  assert (Hl : length (concat (entry <$> take 1000 (table tt))) = 3000%nat).
  { rewrite length_concat_clusters.
    - rewrite length_take. unfold ClusterSize. lia.
    - apply Forall_take, (wf_clusters _ Hwf). }
  rewrite Hl.
  assert (Hle : (length (occupied_entries tt) ≤ 3000)%nat).
  { rewrite <- Hl. apply length_filter. }
  unfold ClusterSize.
  rewrite Z.quot_div_nonneg by lia.
  unfold occupied_entries in *.
  set (n := length (filter _ _)) in *. clearbody n.
  split.
  - intros [= Hq]. change (Z.of_nat 3) with 3 in Hq.
    pose proof (Z.mul_div_le (Z.of_nat n) 3). lia.
  - intros ->. reflexivity.
Qed.

Lemma hashfull_loop_out_of_bounds tt n : ∀ s cnt,
  (s ≤ length (table tt) < s + n)%nat →
  hashfull_loop tt (seq s n) cnt = Fault.
Proof.
  induction n as [|n IH]; intros s cnt Hs; [lia|].
  cbn [seq hashfull_loop]. unfold load.
  destruct (table tt !! s) as [c|] eqn:Hc; [|reflexivity].
  cbn [mbind Result_bind]. apply IH.
  apply lookup_lt_Some in Hc. lia.
Qed.

(** X9: [hashfull] reads the first 1000 clusters whatever [clusterCount]
    is: on a table of fewer clusters it reads past the end of the table. *)
Theorem hashfull_small_table tt :
  (length (table tt) < 1000)%nat → hashfull tt = Fault.
Proof.
  intros Hlen. unfold hashfull.
  rewrite (hashfull_loop_out_of_bounds tt 1000 0 0) by lia. reflexivity.
Qed.

(** ** resize *)

(** X10: a [resize] that returns has built a table of 32768 clusters per
    megabyte, every one zeroed, at the generation the old table had; the
    table is well formed, so that [probe] and [save] stay inside it, and
    large enough for [hashfull]. *)
Theorem resize_builds_table alloc T mbSize tt tt' :
  wf_Allocator alloc → 1 ≤ T → 1 ≤ mbSize < 2 ^ 44 →
  0 ≤ generation8 tt < 256 → Z.land (generation8 tt) 0x7 = 0 →
  resize alloc T mbSize tt = Ok tt' →
  wf_TT tt'
  ∧ clusterCount tt' = 32768 * mbSize
  ∧ table tt' = replicate (Z.to_nat (32768 * mbSize)) zero_cluster
  ∧ generation8 tt' = generation8 tt
  ∧ ∃ h, hashfull tt' = Ok h.
Proof.
  intros Halloc HT Hmb Hg Hl Hres.
  destruct (resize_wf alloc T mbSize tt tt' Halloc HT Hmb Hg Hl Hres)
    as [Hwf Hbig].
  destruct (alloc (size_t (size_t (mbSize * 1024 * 1024) / sizeof_Cluster
                           * sizeof_Cluster))) as [mem|] eqn:Hmem.
  2: { unfold resize in Hres. by rewrite Hmem in Hres. }
  destruct (resize_unfold alloc T mbSize tt mem Halloc Hmem)
    as (tt1 & Hres' & Hcc & Hlen & Hg1 & Hz).
  assert (tt1 = tt') as -> by congruence.
  assert (Hcount : clusterCount tt' = 32768 * mbSize).
  { rewrite Hcc. unfold size_t, sizeof_Cluster. rewrite Z.mod_small by lia.
    replace (mbSize * 1024 * 1024) with (32768 * mbSize * 32) by lia.
    apply Z.div_mul. lia. }
  split_and!; [exact Hwf|exact Hcount| |exact Hg1|].
  - rewrite (Hz HT), Hcount. reflexivity.
  - rewrite (hashfull_unfold tt' Hbig). eauto.
Qed.

(** ** Sequences of calls *)

(** X12: no sequence of [probe], [save] and [clear] calls with 64-bit keys
    takes a well-formed table out of its invariant: every call completes
    inside the table, and the number of clusters, their size and the
    generation are those of the start. *)
Theorem calls_keep_invariant DEPTH_OFFSET calls : ∀ tt,
  wf_TT tt → Forall valid_Call calls →
  ∃ tt', run_calls DEPTH_OFFSET calls tt = Ok tt'
    ∧ wf_TT tt'
    ∧ clusterCount tt' = clusterCount tt
    ∧ length (table tt') = length (table tt)
    ∧ generation8 tt' = generation8 tt.
Proof.
  induction calls as [|call calls IH]; intros tt Hwf Hvalid.
  - exists tt. done.
  - apply Forall_cons in Hvalid as [Hcall Hvalid].
    destruct call as [key|k v pv b d m ev|T]; cbn [valid_Call] in Hcall;
      cbn [run_calls].
    + destruct (probe_unfold tt key Hwf Hcall) as (c & Hc & _ & _ & ->).
      destruct (list_find _ (entry c)) as [[i e]|]; cbn [mbind Result_bind snd].
      * match goal with |- context [run_calls _ _ ?t] =>
          destruct (IH t) as (tt' & Hr & Hwf' & Hcc & Hlen & Hg);
            [by apply set_cluster_wf|done|]
        end.
        exists tt'. split_and!; try done.
        rewrite Hlen. cbn [set_cluster table]. by rewrite length_insert.
      * by apply IH.
    + destruct (save_unfold DEPTH_OFFSET tt k v pv b d m ev Hwf Hcall)
        as (c & r & old & Hc & _ & _ & _ & _ & ->).
      cbn [mbind Result_bind].
      match goal with |- context [run_calls _ _ ?t] =>
        destruct (IH t) as (tt' & Hr & Hwf' & Hcc & Hlen & Hg);
          [by apply set_cluster_wf|done|]
      end.
      exists tt'. split_and!; try done.
      rewrite Hlen. cbn [set_cluster table]. by rewrite length_insert.
    + destruct (clear_total T tt (wf_count _ Hwf) (wf_bytes _ Hwf))
        as (tt1 & -> & Hcc1 & Hg1 & Hlen1 & Hz).
      cbn [mbind Result_bind].
      assert (Hwf1 : wf_TT tt1).
      { destruct Hwf as [Hc Hn Hb Hcl Hgr Hgl]. split; try congruence.
        rewrite (Hz Hcall). apply Forall_replicate. reflexivity. }
      destruct (IH tt1 Hwf1 Hvalid) as (tt' & Hr & Hwf' & Hcc & Hlen & Hg).
      exists tt'. split_and!; try done; congruence.
Qed.

(** ** Root moves *)

(** X13: [RootMove::operator<] is a strict weak ordering, as [std::sort]
    and [std::stable_sort] require: it is irreflexive, asymmetric and
    transitive, and two root moves are unordered exactly when they have the
    same visits, score and previous score. *)
Theorem RootMove_lt_strict_weak_order :
  (∀ a, Search.RootMove_lt a a = false)
  ∧ (∀ a b, Search.RootMove_lt a b = true → Search.RootMove_lt b a = false)
  ∧ (∀ a b c, Search.RootMove_lt a b = true → Search.RootMove_lt b c = true →
       Search.RootMove_lt a c = true)
  ∧ (∀ a b, Search.RootMove_lt a b = false ∧ Search.RootMove_lt b a = false
       ↔ Search.visits a = Search.visits b ∧ Search.score a = Search.score b
         ∧ Search.previousScore a = Search.previousScore b).
Proof.
  unfold Search.RootMove_lt. split_and!.
  - intros a. repeat case_decide; try done. apply bool_decide_eq_false. lia.
  - intros a b.
    repeat case_decide; rewrite ?bool_decide_eq_true, ?bool_decide_eq_false; lia.
  - intros a b c.
    repeat case_decide; rewrite ?bool_decide_eq_true; lia.
  - intros a b.
    repeat case_decide; rewrite ?bool_decide_eq_false; lia.
Qed.

(** X14: the order is descending: a root move that no move of a list comes
    before (the first of the list once sorted) has the most visits of the
    list, and among the moves of as many visits the highest score. *)
Theorem RootMove_first_is_most_visited (best : Search.RootMove)
    (l : list Search.RootMove) :
  (∀ x, x ∈ l → Search.RootMove_lt x best = false) →
  ∀ x, x ∈ l →
    Search.visits x ≤ Search.visits best
    ∧ (Search.visits x = Search.visits best →
       Search.score x ≤ Search.score best).
Proof.
  intros Hfirst x Hx. specialize (Hfirst x Hx).
  unfold Search.RootMove_lt in Hfirst.
  repeat case_decide; rewrite ?bool_decide_eq_false in Hfirst; lia.
Qed.

(** ** The further properties on the example tables *)

(** X1 on [ex_tt] and [ex_key]. *)
Lemma probe_found_iff_match_witness :
  wf_TT ex_tt ∧ is_Key ex_key
  ∧ ∃ found p tt',
      probe ex_tt ex_key = Ok (found, p, tt')
      ∧ (found = true
         ↔ ∃ e, e ∈ cluster_of ex_tt ex_key ∧ key16 e = ex_key / 2 ^ 48)
      ∧ (p = None ↔ found = false)
      ∧ ∀ q, p = Some q →
          q.1 = first_entry ex_tt ex_key ∧ (q.2 < ClusterSize)%nat
          ∧ (∃ e', entry_at tt' q = Some e' ∧ key16 e' = ex_key / 2 ^ 48)
          ∧ ∀ j e, (j < q.2)%nat → cluster_of ex_tt ex_key !! j = Some e →
              key16 e ≠ ex_key / 2 ^ 48.
Proof.
  assert (Hk : is_Key ex_key) by by_eval.
  split_and!; [exact ex_tt_wf|exact Hk|].
  exact (probe_found_iff_match ex_tt ex_key ex_tt_wf Hk).
Defined.

(** X2 on [ex_tt]: the second [probe] of [ex_key] changes nothing more. *)
Lemma probe_twice_witness :
  wf_TT ex_tt ∧ is_Key ex_key
  ∧ probe ex_tt ex_key = Ok (true, Some (1%nat, 1%nat), ex_tt_refreshed)
  ∧ probe ex_tt_refreshed ex_key = Ok (true, Some (1%nat, 1%nat), ex_tt_refreshed).
Proof.
  assert (Hk : is_Key ex_key) by by_eval.
  assert (Hp : probe ex_tt ex_key = Ok (true, Some (1%nat, 1%nat), ex_tt_refreshed))
    by reflexivity.
  split_and!; [exact ex_tt_wf|exact Hk|exact Hp|].
  exact (probe_twice ex_tt ex_key true (Some (1%nat, 1%nat)) ex_tt_refreshed
           ex_tt_wf Hk Hp).
Defined.

(** X3 on [ex_tt]: the score of [ex_entry] rises from 8 to its [depth8]. *)
Lemma probe_hit_raises_rscore_witness :
  wf_TT ex_tt ∧ is_Key ex_key
  ∧ probe ex_tt ex_key = Ok (true, Some (1%nat, 1%nat), ex_tt_refreshed)
  ∧ ∃ e e',
      entry_at ex_tt (1%nat, 1%nat) = Some e
      ∧ entry_at ex_tt_refreshed (1%nat, 1%nat) = Some e'
      ∧ rscore (generation8 ex_tt) e' = depth8 e
      ∧ rscore (generation8 ex_tt) e ≤ rscore (generation8 ex_tt) e'.
Proof.
  assert (Hk : is_Key ex_key) by by_eval.
  assert (Hp : probe ex_tt ex_key = Ok (true, Some (1%nat, 1%nat), ex_tt_refreshed))
    by reflexivity.
  split_and!; [exact ex_tt_wf|exact Hk|exact Hp|].
  exact (probe_hit_raises_rscore ex_tt ex_key (1%nat, 1%nat) ex_tt_refreshed
           ex_tt_wf Hk Hp).
Defined.

(** X4 on [ex_entry], written at generation 8 and scored at generation 16,
    one generation later. *)
Lemma rscore_relative_age_witness :
  0 ≤ 16 < 256 ∧ Z.land 16 0x7 = 0 ∧ 0 ≤ genBound8 ex_entry < 256
  ∧ rscore 16 ex_entry = depth8 ex_entry - 8 * ((16 / 8 - genBound8 ex_entry / 8) mod 32)
  ∧ depth8 ex_entry - 248 ≤ rscore 16 ex_entry ≤ depth8 ex_entry.
Proof.
  assert (Hg : 0 ≤ 16 < 256) by lia.
  assert (Hl : Z.land 16 0x7 = 0) by reflexivity.
  assert (Hgb : 0 ≤ genBound8 ex_entry < 256) by by_eval.
  refine (conj Hg (conj Hl (conj Hgb _))).
  exact (rscore_relative_age 16 ex_entry Hg Hl Hgb).
Defined.

(** X5 on [ex_tt]: a [save] for [ex_new_key] takes the empty slot of the
    cluster and leaves [probe] of [ex_key] as it was. *)
Lemma save_keeps_other_keys_witness :
  wf_TT ex_tt ∧ is_Key ex_new_key ∧ is_Key ex_key
  ∧ ex_key / 2 ^ 48 ≠ ex_new_key / 2 ^ 48
  ∧ (ex_key / 2 ^ 48 ≠ 0
     ∧ ∃ e, e ∈ cluster_of ex_tt ex_new_key ∧ key16 e = 0)
  ∧ probe ex_tt ex_key = Ok (true, Some (1%nat, 1%nat), ex_tt_refreshed)
  ∧ ∃ tt1 tt2',
      save (-6) ex_tt ex_new_key 7 false BOUND_UPPER 3 0x0102 (-1) = Ok tt1
      ∧ probe tt1 ex_key = Ok (true, Some (1%nat, 1%nat), tt2')
      ∧ ∀ q, Some (1%nat, 1%nat) = Some q →
          entry_at tt2' q = entry_at ex_tt_refreshed q.
Proof.
  assert (Hk : is_Key ex_new_key) by by_eval.
  assert (Hk' : is_Key ex_key) by by_eval.
  assert (Hne : ex_key / 2 ^ 48 ≠ ex_new_key / 2 ^ 48) by by_eval.
  assert (Hroom : ex_key / 2 ^ 48 ≠ 0
                  ∧ ∃ e, e ∈ cluster_of ex_tt ex_new_key ∧ key16 e = 0).
  { split; [by_eval|]. exists zero_entry. split; [|reflexivity].
    by apply (list_elem_of_lookup_2 _ 2%nat). }
  assert (Hp : probe ex_tt ex_key = Ok (true, Some (1%nat, 1%nat), ex_tt_refreshed))
    by reflexivity.
  refine (conj ex_tt_wf (conj Hk (conj Hk' (conj Hne (conj Hroom (conj Hp _)))))).
  exact (save_keeps_other_keys (-6) ex_tt ex_new_key ex_key 7 false BOUND_UPPER
           3 0x0102 (-1) true (Some (1%nat, 1%nat)) ex_tt_refreshed
           ex_tt_wf Hk Hk' Hne (or_intror Hroom) Hp).
Defined.

(** X6 on [ex_tt]: [ex_twin_key] is answered with what was saved for
    [ex_key]. *)
Lemma save_then_probe_collision_witness :
  wf_TT ex_tt ∧ is_Key ex_key ∧ is_Key ex_twin_key ∧ ex_twin_key ≠ ex_key
  ∧ is_Value 50 ∧ is_Value (-4) ∧ is_Depth (-6) 12
  ∧ first_entry ex_tt ex_twin_key = first_entry ex_tt ex_key
  ∧ ex_twin_key / 2 ^ 48 = ex_key / 2 ^ 48
  ∧ ∃ tt1 p tt2 e,
      save (-6) ex_tt ex_key 50 false BOUND_LOWER 12 0 (-4) = Ok tt1
      ∧ probe tt1 ex_twin_key = Ok (true, Some p, tt2)
      ∧ entry_at tt2 p = Some e
      ∧ value16 e = 50 ∧ eval16 e = -4
      ∧ entry_bound (genBound8 e) = BOUND_LOWER
      ∧ entry_is_pv (genBound8 e) = false
      ∧ TTEntry_depth (-6) e = 12.
Proof.
  assert (Hk : is_Key ex_key) by by_eval.
  assert (Hk' : is_Key ex_twin_key) by by_eval.
  assert (Hdiff : ex_twin_key ≠ ex_key) by by_eval.
  assert (Hv : is_Value 50) by by_eval.
  assert (Hev : is_Value (-4)) by by_eval.
  assert (Hd : is_Depth (-6) 12) by by_eval.
  assert (Hfe : first_entry ex_tt ex_twin_key = first_entry ex_tt ex_key)
    by reflexivity.
  assert (Hhi : ex_twin_key / 2 ^ 48 = ex_key / 2 ^ 48) by reflexivity.
  refine (conj ex_tt_wf (conj Hk (conj Hk' (conj Hdiff (conj Hv (conj Hev
            (conj Hd (conj Hfe (conj Hhi _))))))))).
  exact (save_then_probe_collision (-6) ex_tt ex_key ex_twin_key 50 false
           BOUND_LOWER 12 0 (-4) ex_tt_wf Hk Hk' Hv Hev Hd Hfe Hhi).
Defined.

(** X7 on [ex_tt] with the bound [BOUND_NONE]: the entry written for
    [ex_key] carries the generation 16 and is not counted. *)
Lemma save_entry_counted_witness :
  wf_TT ex_tt ∧ is_Key ex_key
  ∧ ∃ r old new tt',
      save (-6) ex_tt ex_key 50 false BOUND_NONE 12 0 (-4) = Ok tt'
      ∧ select_victim (generation8 ex_tt) (key_sig ex_key)
          (cluster_of ex_tt ex_key) = Some r
      ∧ entry_at ex_tt (first_entry ex_tt ex_key, r) = Some old
      ∧ new = write_entry (-6) (generation8 ex_tt) (key_sig ex_key)
                50 false BOUND_NONE 12 0 (-4) old
      ∧ entry_at tt' (first_entry ex_tt ex_key, r) = Some new
      ∧ (∀ q, q ≠ (first_entry ex_tt ex_key, r) →
           entry_at tt' q = entry_at ex_tt q)
      ∧ generation8 tt' = generation8 ex_tt
      ∧ key16 new = ex_key / 2 ^ 48
      ∧ entry_generation (genBound8 new) = generation8 tt'
      ∧ entry_bound (genBound8 new) = BOUND_NONE
      ∧ (occupied (generation8 tt') new = true ↔ BOUND_NONE ≠ BOUND_NONE).
Proof.
  assert (Hk : is_Key ex_key) by by_eval.
  split_and!; [exact ex_tt_wf|exact Hk|].
  exact (save_entry_counted (-6) ex_tt ex_key 50 false BOUND_NONE 12 0 (-4)
           ex_tt_wf Hk).
Defined.

(** X8 on [ex_big], a third of which is occupied. *)
Lemma hashfull_full_iff_witness :
  wf_TT ex_big ∧ (1000 ≤ length (table ex_big))%nat
  ∧ (hashfull ex_big = Ok 1000
     ↔ Forall (λ e, entry_generation (genBound8 e) = generation8 ex_big
                    ∧ entry_bound (genBound8 e) ≠ BOUND_NONE)
         (concat (entry <$> take 1000 (table ex_big)))).
Proof.
  assert (Hlen : (1000 ≤ length (table ex_big))%nat).
  { cbn [ex_big table]. rewrite length_replicate. reflexivity. }
  split_and!; [exact ex_big_wf|exact Hlen|].
  exact (hashfull_full_iff ex_big ex_big_wf Hlen).
Defined.

(** X9 on the two clusters of [ex_tt]. *)
Lemma hashfull_small_table_witness :
  (length (table ex_tt) < 1000)%nat ∧ hashfull ex_tt = Fault.
Proof.
  assert (Hlen : (length (table ex_tt) < 1000)%nat) by (cbn; lia).
  split; [exact Hlen|]. exact (hashfull_small_table ex_tt Hlen).
Defined.

(** X10 with the allocator of 32 megabytes and four threads. *)
Lemma resize_builds_table_witness :
  wf_Allocator ex_alloc ∧ 1 ≤ 4 ∧ 1 ≤ 1 < 2 ^ 44
  ∧ 0 ≤ generation8 ex_tt < 256 ∧ Z.land (generation8 ex_tt) 0x7 = 0
  ∧ ∃ tt',
      resize ex_alloc 4 1 ex_tt = Ok tt'
      ∧ wf_TT tt'
      ∧ clusterCount tt' = 32768 * 1
      ∧ table tt' = replicate (Z.to_nat (32768 * 1)) zero_cluster
      ∧ generation8 tt' = generation8 ex_tt
      ∧ ∃ h, hashfull tt' = Ok h.
Proof.
  assert (HT : 1 ≤ 4) by lia.
  assert (Hmb : 1 ≤ 1 < 2 ^ 44) by lia.
  assert (Hg : 0 ≤ generation8 ex_tt < 256) by by_eval.
  assert (Hl : Z.land (generation8 ex_tt) 0x7 = 0) by reflexivity.
  refine (conj ex_alloc_wf (conj HT (conj Hmb (conj Hg (conj Hl _))))).
  destruct (resize_unfold ex_alloc 4 1 ex_tt _ ex_alloc_wf ex_alloc_one_megabyte)
    as (tt' & Hres & _).
  exists tt'. split; [exact Hres|].
  exact (resize_builds_table ex_alloc 4 1 ex_tt tt' ex_alloc_wf HT Hmb Hg Hl Hres).
Defined.

(** X11 on [ex_tt]: after [clear], [ex_key] is no longer found. *)
Lemma clear_then_probe_witness :
  wf_TT ex_tt ∧ 1 ≤ 4 ∧ is_Key ex_key
  ∧ ∃ tt1 p tt2,
      clear 4 ex_tt = Ok tt1
      ∧ wf_TT tt1
      ∧ generation8 tt1 = generation8 ex_tt
      ∧ probe tt1 ex_key = Ok (bool_decide (ex_key / 2 ^ 48 = 0), p, tt2)
      ∧ (ex_key / 2 ^ 48 ≠ 0 → p = None ∧ tt2 = tt1).
Proof.
  assert (HT : 1 ≤ 4) by lia.
  assert (Hk : is_Key ex_key) by by_eval.
  split_and!; [exact ex_tt_wf|exact HT|exact Hk|].
  exact (clear_then_probe 4 ex_tt ex_key ex_tt_wf HT Hk).
Defined.

(** X12 on [ex_tt] with the calls [ex_calls]. *)
Lemma calls_keep_invariant_witness :
  wf_TT ex_tt ∧ Forall valid_Call ex_calls
  ∧ ∃ tt', run_calls (-6) ex_calls ex_tt = Ok tt'
      ∧ wf_TT tt'
      ∧ clusterCount tt' = clusterCount ex_tt
      ∧ length (table tt') = length (table ex_tt)
      ∧ generation8 tt' = generation8 ex_tt.
Proof.
  assert (Hvalid : Forall valid_Call ex_calls) by (repeat constructor; by_eval).
  split_and!; [exact ex_tt_wf|exact Hvalid|].
  exact (calls_keep_invariant (-6) ex_calls ex_tt ex_tt_wf Hvalid).
Defined.

(** X14 on [ex_root_moves], whose first move has the most visits. *)
Lemma RootMove_first_is_most_visited_witness :
  (∀ x, x ∈ ex_root_moves →
     Search.RootMove_lt x (Search.mkRootMove 10 0 0 0 0 7 0 [1]) = false)
  ∧ ∀ x, x ∈ ex_root_moves →
      Search.visits x ≤ 7 ∧ (Search.visits x = 7 → Search.score x ≤ 10).
Proof.
  assert (Hfirst : ∀ x, x ∈ ex_root_moves →
            Search.RootMove_lt x (Search.mkRootMove 10 0 0 0 0 7 0 [1]) = false).
  { intros x Hx.
    repeat (apply elem_of_cons in Hx as [->|Hx]; [reflexivity|]).
    by apply elem_of_nil in Hx. }
  split; [exact Hfirst|].
  exact (RootMove_first_is_most_visited (Search.mkRootMove 10 0 0 0 0 7 0 [1])
           ex_root_moves Hfirst).
Defined.
